(** * The shopping tool set of [shopping_tools.py]

    A shallow embedding of the three agent tools ([VisualSearchTool],
    [NavigateTool], [AddToCartTool]) and of the process-wide
    [SHARED_BROWSER_STATE] they share, together with the properties the
    design document states about them.

    Everything the tools talk to (Playwright, SerpAPI, the process
    environment, [urllib.parse]) is outside the repository.  It is
    modelled by a record [World] of oracles: an awaited call is answered
    from the history of the calls made so far, either with a value or with
    an exception.  The tools are written in a small state-and-exception
    monad over the shared browser state and that history, with
    [try]/[except]/[finally] and [async with] as combinators.  Decoded
    JSON (the search response, a request body) is read by the code without
    any check of its shape; it is modelled by what the code can observe of
    a value, so that a value of an unexpected shape is an input like any
    other.  Console output ([print]) is not modelled, nor are the constant
    launch options ([slow_mo], the Chromium flags, [wait_until]). *)

From Stdlib Require Import String Ascii List Arith Lia.
From stdpp Require Import gmap strings list.

(** ** Strings

    A Python [str] is represented by its UTF-8 bytes. *)

Definition dquote : string := String "034"%char EmptyString.
Definition nl : string := String "010"%char EmptyString.

Fixpoint spaces (n : nat) : string :=
  match n with
  | O => EmptyString
  | S n' => String " "%char (spaces n')
  end.

(** One line of a triple-quoted template: indentation, text, line break. *)
Definition line (indent : nat) (text : string) : string :=
  spaces indent +:+ text +:+ nl.

(** [needle in hay] on [str]: plain substring containment. *)
Fixpoint contains (needle hay : string) : bool :=
  if String.prefix needle hay then true
  else match hay with
       | EmptyString => false
       | String _ hay' => contains needle hay'
       end.

(** Truth value of a [str]: only the empty string is falsy. *)
Definition truthy (s : string) : bool :=
  match s with
  | EmptyString => false
  | String _ _ => true
  end.

(** [urllib.parse.quote(s)] with its default [safe='/']: every byte other
    than an ASCII letter, a digit, one of [_.-~] or [/] becomes [%XX] with
    upper-case hexadecimal digits. *)
Definition always_safe (c : ascii) : bool :=
  let n := nat_of_ascii c in
  ((65 <=? n) && (n <=? 90)) || ((97 <=? n) && (n <=? 122))
  || ((48 <=? n) && (n <=? 57))
  || (n =? 95) || (n =? 46) || (n =? 45) || (n =? 126).

Definition hex_digit (n : nat) : ascii :=
  if n <? 10 then ascii_of_nat (48 + n) else ascii_of_nat (55 + n).

Fixpoint quote (s : string) : string :=
  match s with
  | EmptyString => EmptyString
  | String c s' =>
      let n := nat_of_ascii c in
      if always_safe c || (n =? 47)
      then String c (quote s')
      else String "%"%char
             (String (hex_digit (n / 16))
                (String (hex_digit (n mod 16)) (quote s')))
  end.

(** How many times [needle] occurs in [hay], at any position. *)
Fixpoint count_occurrences (needle hay : string) : nat :=
  (if String.prefix needle hay then 1 else 0)
  + match hay with
    | EmptyString => 0
    | String _ hay' => count_occurrences needle hay'
    end.

(** ** Data model *)

(** Playwright objects (driver, browser, context, page) are opaque handles. *)
Definition handle := nat.

(** A raised exception, identified by its message [str(e)].  Only faults of
    class [Exception] are modelled (what Playwright, SerpAPI and attribute
    access raise); interpreter-level signals such as task cancellation
    and keyboard interrupts are not. *)
Definition exn := string.

Inductive res (A : Type) : Type :=
| Ok (a : A)
| Raise (e : exn).
Arguments Ok {A} a.
Arguments Raise {A} e.

Definition is_ok {A} (r : res A) : bool :=
  match r with Ok _ => true | Raise _ => false end.

(** *** Decoded JSON

    The search response and the request bodies are decoded JSON, which
    the code reads without checking its shape.  A value is modelled by
    what the code can observe of it. *)

(** A value read with [.get]: a [str], or anything else ([None], a number,
    a boolean, a list, a dict).  Of a value that is not a [str] the code
    sees its truth value, the text [str()] writes for it in an f-string,
    and the exception [urllib.parse.quote] raises on it.  (A [str] with a
    lone surrogate, which UTF-8 cannot encode and [quote] rejects, counts
    as [NonStr].) *)
Inductive value : Type :=
| Str (s : string)
| NonStr (truth : bool) (text : string) (quote_fault : exn).

(** A value on which the code calls [.get]: a JSON object, or any other
    value, on which the attribute lookup raises. *)
Inductive item : Type :=
| Object (fields : gmap string value)
| NotObject (get_fault : exn).

(** What the search response holds at ["shopping_results"]: an array of
    items, or any other value, known by its truth value and by the
    exception the loop [for p in results] ends with (the value is not
    iterable, or what it yields has no [.get]). *)
Inductive results_value : Type :=
| Items (items : list item)
| NotArray (truth : bool) (loop_fault : exn).

(** [SHARED_BROWSER_STATE]: a dict with the three fixed keys
    ["playwright"], ["browser"], ["page"]; [None] is Python's [None]. *)
Record SharedState : Type := mkShared {
  playwright : option handle;
  browser : option handle;
  page : option handle
}.

Definition SHARED_BROWSER_STATE : SharedState :=
  {| playwright := None; browser := None; page := None |}.

(** *** Awaited calls into the outside world

    The index is the type of the value the call returns.  A locator is
    identified by its page and selector; every locator the tools use is
    narrowed with [.first].  Timeouts are in milliseconds. *)
Inductive call : Type -> Type :=
| AsyncPlaywrightEnter : call handle
    (* async with async_playwright() as p *)
| AsyncPlaywrightExit (p : handle) : call unit
    (* leaving that block *)
| AsyncPlaywrightStart : call handle
    (* await async_playwright().start() *)
| ChromiumLaunch (p : handle) (headless : bool) : call handle
| BrowserNewPage (b : handle) (user_agent : string) : call handle
| BrowserNewContext (b : handle) (width height : nat) : call handle
| ContextNewPage (c : handle) : call handle
| PageGoto (pg : handle) (url : string) (timeout : N) : call unit
| LocatorCount (pg : handle) (selector : string) : call nat
| LocatorGetAttribute (pg : handle) (selector name : string)
    : call (option string)
| LocatorClick (pg : handle) (selector : string) (force : bool) : call unit
| LocatorIsVisible (pg : handle) (selector : string) : call bool
| GetByTextClick (pg : handle) (text : string) (timeout : N) : call unit
| ExpectPage (pg : handle) : call handle
    (* the page awaited by page.context.expect_page() *)
| PageWaitForLoadState (pg : handle) (state : string) : call unit
| BrowserClose (b : handle) : call unit
| GoogleSearch (api_key q : string) : call (option results_value).
    (* GoogleSearch(params).get_dict(), read at "shopping_results";
       None when the response has no such key *)

(** Synchronous reads, which do not raise and leave no mark. *)
Inductive query : Type -> Type :=
| Getenv (name : string) : query (option string)
| PageUrl (pg : handle) : query string.

(** What the process did, oldest first. *)
Inductive event : Type :=
| Ev {T : Type} (c : call T) (r : res T)
| EvSleep (secs : nat).

Record World : Type := mkWorld {
  (* urllib.parse.unquote *)
  unquote : string -> string;
  (* parse_qs(urlparse(raw).query).get("q", [None])[0] *)
  href_q : option string -> res (option string);
  act : forall T, list event -> call T -> res T;
  obs : forall T, list event -> query T -> T
}.

Record state : Type := mkState {
  shared : SharedState;
  trace : list event
}.

Definition initial_state : state :=
  {| shared := SHARED_BROWSER_STATE; trace := [] |}.

(** ** The monad of tool code *)

Definition M (A : Type) : Type := state -> res A * state.

Definition ret {A} (a : A) : M A := fun st => (Ok a, st).

Definition raise {A} (e : exn) : M A := fun st => (Raise e, st).

Definition bind {A B} (m : M A) (k : A -> M B) : M B :=
  fun st =>
    match m st with
    | (Ok a, st') => k a st'
    | (Raise e, st') => (Raise e, st')
    end.

Declare Scope tool_scope.
Delimit Scope tool_scope with tool.
Notation "x <- m ;; k" := (bind m (fun x => k))
  (at level 100, m at next level, right associativity) : tool_scope.
Notation "m ;;; k" := (bind m (fun _ => k))
  (at level 100, right associativity) : tool_scope.
Open Scope tool_scope.

(** [try: m  except: h] *)
Definition try_except {A} (m : M A) (h : exn -> M A) : M A :=
  fun st =>
    match m st with
    | (Ok a, st') => (Ok a, st')
    | (Raise e, st') => h e st'
    end.

(** [try: m  finally: f]: [f] runs on every exit of [m]; an exception
    raised by [f] replaces the outcome of [m]. *)
Definition try_finally {A} (m : M A) (f : M unit) : M A :=
  fun st =>
    match m st with
    | (r, st') =>
        match f st' with
        | (Ok _, st'') => (r, st'')
        | (Raise e, st'') => (Raise e, st'')
        end
    end.

(** Run [m] and hand its outcome over as a value. *)
Definition attempt {A} (m : M A) : M (res A) :=
  fun st => match m st with (r, st') => (Ok r, st') end.

Definition lift {A} (r : res A) : M A := fun st => (r, st).

Definition get_shared : M SharedState := fun st => (Ok (shared st), st).

Definition put_shared (s : SharedState) : M unit :=
  fun st => (Ok tt, {| shared := s; trace := trace st |}).

Definition log (e : event) (st : state) : state :=
  {| shared := shared st; trace := trace st ++ [e] |}.

Section Tools.

Variable w : World.

Definition perform {T} (c : call T) : M T :=
  fun st => let r := act w T (trace st) c in (r, log (Ev c r) st).

Definition observe {T} (q : query T) : M T :=
  fun st => (Ok (obs w T (trace st) q), st).

(** [await asyncio.sleep(secs)] *)
Definition sleep (secs : nat) : M unit :=
  fun st => (Ok tt, log (EvSleep secs) st).

(** ** Tool 1: [VisualSearchTool] *)

(** Truth value of a value. *)
Definition truth_of (v : value) : bool :=
  match v with
  | Str s => truthy s
  | NonStr truth _ _ => truth
  end.

(** What an f-string writes for [{v}]. *)
Definition text_of (v : value) : string :=
  match v with
  | Str s => s
  | NonStr _ text _ => text
  end.

(** [urllib.parse.quote(v)]: defined on [str], an exception on anything
    else. *)
Definition quote_value (v : value) : res string :=
  match v with
  | Str s => Ok (quote s)
  | NonStr _ _ e => Raise e
  end.

(** [p.get(key, default)] on a dict. *)
Definition get_or (p : gmap string value) (key dflt : string) : value :=
  default (Str dflt) (p !! key).

(** [a or b], a missing key reading as [None]. *)
Definition or_else (a b : option value) : option value :=
  match a with
  | Some v => if truth_of v then a else b
  | None => b
  end.

(** [p.get("link") or p.get("product_link")], followed by the test
    [if not raw_link]: [None] stands for any falsy value. *)
Definition raw_link_of (p : gmap string value) : option value :=
  match or_else (p !! "link") (p !! "product_link") with
  | Some v => if truth_of v then Some v else None
  | None => None
  end.

(** The f-string appended for one product. *)
Definition card_html (img title price source encoded_link : string) : string :=
  nl
  +:+ line 12 ("<div class=" +:+ dquote +:+ "card" +:+ dquote +:+ ">")
  +:+ line 16 ("<div class=" +:+ dquote +:+ "image-container" +:+ dquote
               +:+ "><img src=" +:+ dquote +:+ img +:+ dquote
               +:+ " alt=" +:+ dquote +:+ title +:+ dquote +:+ "></div>")
  +:+ line 16 ("<div class=" +:+ dquote +:+ "meta" +:+ dquote +:+ ">")
  +:+ line 20 ("<div class=" +:+ dquote +:+ "title" +:+ dquote +:+ ">"
               +:+ title +:+ "</div>")
  +:+ line 20 ("<div class=" +:+ dquote +:+ "price" +:+ dquote +:+ ">"
               +:+ price +:+ "</div>")
  +:+ line 20 ("<div class=" +:+ dquote +:+ "store" +:+ dquote +:+ ">"
               +:+ source +:+ "</div>")
  +:+ line 20 ("<button class=" +:+ dquote +:+ "buy-btn" +:+ dquote
               +:+ " onclick=" +:+ dquote +:+ "triggerAutoBuy('"
               +:+ encoded_link +:+ "')" +:+ dquote +:+ ">")
  +:+ line 24 "Auto-Buy 🤖"
  +:+ line 20 "</button>"
  +:+ line 16 "</div>"
  +:+ line 12 "</div>"
  +:+ spaces 12.

(** The loop [for p in results] over an array, with its two loop
    variables.  The loop stands after the tool's [try]: the first [p.get]
    raises on an item that is not an object, and [quote] on a link that is
    not a [str]. *)
Fixpoint render_cards (results : list item) (count : nat)
    (html_output : string) : res string :=
  match results with
  | [] => Ok html_output
  | p :: rest =>
      if 6 <=? count then Ok html_output
      else
        match p with
        | NotObject e => Raise e
        | Object p =>
            let img := get_or p "thumbnail" "" in
            let title := get_or p "title" "Unknown" in
            let price := get_or p "price" "Check Site" in
            let source := get_or p "source" "Web" in
            match raw_link_of p with
            | None => render_cards rest count html_output
            | Some raw_link =>
                match quote_value raw_link with
                | Raise e => Raise e
                | Ok encoded_link =>
                    render_cards rest (S count)
                      (html_output
                       +:+ card_html (text_of img) (text_of title)
                             (text_of price) (text_of source) encoded_link)
                end
            end
        end
  end.

(** Truth value of what was read at ["shopping_results"]. *)
Definition results_truthy (results : results_value) : bool :=
  match results with
  | Items [] => false
  | Items (_ :: _) => true
  | NotArray truth _ => truth
  end.

(** Everything after the [try]: the test [if not results], the opening of
    the grid, the loop and the closing tag. *)
Definition render_results (results : results_value) : res string :=
  if negb (results_truthy results) then Ok "No products found."
  else
    let html_output := "<div class='grid-container'>" in
    match results with
    | NotArray _ e => Raise e
    | Items results =>
        match render_cards results 0 html_output with
        | Raise e => Raise e
        | Ok html_output => Ok (html_output +:+ "</div>")
        end
    end.

Definition VisualSearchTool_execute (q : string) : M string :=
  api_key <- observe (Getenv "SERPAPI_KEY");;
  match api_key with
  | None => ret "<div>Error: SERPAPI_KEY missing.</div>"
  | Some key =>
      if negb (truthy key) then ret "<div>Error: SERPAPI_KEY missing.</div>"
      else
        search <- attempt (perform (GoogleSearch key q));;
        match search with
        | Raise e => ret ("Search Error: " +:+ e)
        | Ok shopping_results =>
            lift (render_results (default (Items []) shopping_results))
        end
  end.

(** ** Tool 2: [NavigateTool] *)

Definition USER_AGENT : string := "Mozilla/5.0 (Windows NT 10.0; Win64; x64)".

(** The inner [try ... except: pass] of the resolver: [Some clean] is its
    [return clean]; [None] means control falls through to the click. *)
Definition extract_from_href (pg : handle) : M (option string) :=
  try_except
    (n <- perform (LocatorCount pg "a[href*='url?q=']");;
     if 0 <? n then
       raw <- perform (LocatorGetAttribute pg "a[href*='url?q=']" "href");;
       clean <- lift (href_q w raw);;
       match clean with
       | Some c => if truthy c then ret (Some c) else ret None
       | None => ret None
       end
     else ret None)
    (fun _ => ret None).

(** "Fallback: Click and wait for redirect". *)
Definition click_offer_row (pg : handle) : M string :=
  perform (LocatorClick pg ".sh-osd__offer-row" false);;;
  new_page <- perform (ExpectPage pg);;
  perform (PageWaitForLoadState new_page "domcontentloaded");;;
  observe (PageUrl new_page).

(** The body of the resolver's [try]. *)
Definition resolve_body (pg : handle) (dirty_url : string) : M string :=
  perform (PageGoto pg dirty_url 30000%N);;;
  current <- observe (PageUrl pg);;
  if contains "google.com" current then
    fast <- extract_from_href pg;;
    match fast with
    | Some clean => ret clean
    | None => click_offer_row pg
    end
  else observe (PageUrl pg).

Definition resolve_url_headless (dirty_url : string) : M string :=
  p <- perform AsyncPlaywrightEnter;;
  try_finally
    (browser <- perform (ChromiumLaunch p true);;
     page <- perform (BrowserNewPage browser USER_AGENT);;
     try_finally
       (try_except (resolve_body page dirty_url) (fun _ => ret dirty_url))
       (perform (BrowserClose browser)))
    (perform (AsyncPlaywrightExit p)).

(** The block guarded by [SHARED_BROWSER_STATE["playwright"] is None]; each
    handle is stored as soon as it is obtained. *)
Definition launch_visible_browser : M unit :=
  p <- perform AsyncPlaywrightStart;;
  s <- get_shared;;
  put_shared {| playwright := Some p; browser := browser s; page := page s |};;;
  b <- perform (ChromiumLaunch p false);;
  s <- get_shared;;
  put_shared {| playwright := playwright s; browser := Some b; page := page s |};;;
  context <- perform (BrowserNewContext b 1280 720);;
  pg <- perform (ContextNewPage context);;
  s <- get_shared;;
  put_shared {| playwright := playwright s; browser := browser s; page := Some pg |}.

Definition NavigateTool_execute (url : string) : M string :=
  let decoded_url := unquote w url in
  clean_url <- (if contains "google.com" decoded_url
                then resolve_url_headless decoded_url
                else ret decoded_url);;
  s <- get_shared;;
  match playwright s with
  | None => launch_visible_browser
  | Some _ => ret tt
  end;;;
  s <- get_shared;;
  try_except
    (match page s with
     | None => raise "'NoneType' object has no attribute 'goto'"
     | Some pg =>
         perform (PageGoto pg clean_url 60000%N);;;
         try_except (perform (GetByTextClick pg "Accept" 2000%N))
                    (fun _ => ret tt);;;
         ret ("✅ Browser Opened. Navigated to: " +:+ clean_url)
     end)
    (fun e => ret ("Navigation Error: " +:+ e)).

(** ** Tool 3: [AddToCartTool] *)

Definition selectors : list string :=
  [ "#add-to-cart-button"; "#add-to-cart-button-ubb";
    "[data-automation-id='add-to-cart']"; "button[name='add']";
    "button:has-text('Add to Cart')"; "button:has-text('Add to Bag')";
    "form[action*='/cart/add'] button"; ".add-to-cart" ].

(** The loop [for selector in selectors]; its value is the flag [clicked]. *)
Fixpoint click_first_visible (pg : handle) (sels : list string) : M bool :=
  match sels with
  | [] => ret false
  | selector :: rest =>
      visible <- perform (LocatorIsVisible pg selector);;
      if visible then
        perform (LocatorClick pg selector true);;;
        ret true
      else click_first_visible pg rest
  end.

Definition AddToCartTool_execute : M string :=
  s <- get_shared;;
  match page s with
  | None => ret "Error: No browser open."
  | Some pg =>
      try_except
        (clicked <- click_first_visible pg selectors;;
         if negb clicked
         then ret "❌ FAILED: Could not find 'Add to Cart' button."
         else
           sleep 5;;;
           ret "Success: Item added to cart.")
        (fun e => ret ("Click Error: " +:+ e))
  end.

(** ** The agent layer: tools called one after another

    [backend.py] wraps each agent run in [try]/[except], so a tool that
    raises does not end the process: the next request finds the shared
    state as the failed call left it. *)
Inductive tool_call : Type :=
| search_products_visual (q : string)
| open_browser_to_url (url : string)
| click_add_to_cart.

Definition run_tool (t : tool_call) : M string :=
  match t with
  | search_products_visual q => VisualSearchTool_execute q
  | open_browser_to_url url => NavigateTool_execute url
  | click_add_to_cart => AddToCartTool_execute
  end.

Fixpoint run_tools (ts : list tool_call) (st : state) : state :=
  match ts with
  | [] => st
  | t :: rest => run_tools rest (snd (run_tool t st))
  end.

End Tools.

(** ** The HTTP layer of [backend.py]

    The two POST handlers.  An agent run ([search_agent.run],
    [action_agent.run]) belongs to the agent framework and the language
    model behind it: it is taken as an arbitrary computation that may call
    tools, change the shared state and raise, and that is handed whatever
    value the handler read.  The request body is the outcome of
    [await request.json()]: the decoded JSON value, which need not be an
    object, or the fault of reading it.

    These are the handlers as the file defines them.  As committed, the
    module cannot be imported: its first assignment reads [_file_], which
    is not a defined name, so the import ends with [NameError] before any
    route is registered. *)





(** ** Simulated worlds

    Concrete oracles on which the tools can be run: a small web described
    by where a navigation lands, which controls a page shows and what the
    search API returns, with optional faults. *)

Definition hex_value (c : ascii) : option nat :=
  let n := nat_of_ascii c in
  if (48 <=? n) && (n <=? 57) then Some (n - 48)
  else if (65 <=? n) && (n <=? 70) then Some (n - 55)
  else if (97 <=? n) && (n <=? 102) then Some (n - 87)
  else None.

(** Percent-decoding of bytes: what [unquote] does on a string whose
    decoded bytes are valid UTF-8. *)
Fixpoint percent_decode (s : string) : string :=
  match s with
  | EmptyString => EmptyString
  | String c s' =>
      if (nat_of_ascii c =? 37) then
        match s' with
        | String a (String b rest) =>
            match hex_value a, hex_value b with
            | Some x, Some y =>
                String (ascii_of_nat (16 * x + y)) (percent_decode rest)
            | _, _ => String c (percent_decode s')
            end
        | _ => String c (percent_decode s')
        end
      else String c (percent_decode s')
  end.

(** The text after the first occurrence of [marker], if any. *)
Fixpoint text_after (marker s : string) : option string :=
  if String.prefix marker s
  then Some (String.substring (String.length marker)
               (String.length s - String.length marker) s)
  else match s with
       | EmptyString => None
       | String _ s' => text_after marker s'
       end.

Fixpoint up_to_ampersand (s : string) : string :=
  match s with
  | EmptyString => EmptyString
  | String c s' =>
      if (nat_of_ascii c =? 38) then EmptyString
      else String c (up_to_ampersand s')
  end.

(** The [q] parameter of an href of the shape [/url?q=TARGET&...]. *)
Definition first_q (raw : option string) : res (option string) :=
  match raw with
  | None => Ok None
  | Some href =>
      Ok (percent_decode <$> (up_to_ampersand <$> text_after "?q=" href))
  end.

(** The URL of the last successful navigation of page [pg]. *)
Definition goto_target (pg : handle) (e : event) : option string :=
  match e with
  | Ev c r =>
      let ok := is_ok r in
      match c with
      | PageGoto pg' url _ => if ok && (pg' =? pg) then Some url else None
      | _ => None
      end
  | EvSleep _ => None
  end.

Fixpoint last_goto (pg : handle) (tr : list event) : option string :=
  match tr with
  | [] => None
  | e :: tr' =>
      match last_goto pg tr' with
      | Some url => Some url
      | None => goto_target pg e
      end
  end.

Record Web : Type := mkWeb {
  (* the URL a page shows after navigating to a URL *)
  lands_on : string -> string;
  (* href of the first a[href*='url?q='] on a search-engine page *)
  anchor_href : option string;
  (* which selectors match a visible control *)
  shows : string -> bool;
  (* SERPAPI_KEY and the "shopping_results" of the search response *)
  serpapi_key : option string;
  shopping_results : option (list item);
  (* calls that fail, with their message *)
  fault : forall T, call T -> option exn
}.

Definition answer (web : Web) (T : Type) (tr : list event) (c : call T)
    : res T :=
  match fault web T c with
  | Some e => Raise e
  | None =>
      match c in call T return res T with
      | AsyncPlaywrightEnter => Ok (S (length tr))
      | AsyncPlaywrightExit _ => Ok tt
      | AsyncPlaywrightStart => Ok (S (length tr))
      | ChromiumLaunch _ _ => Ok (S (length tr))
      | BrowserNewPage _ _ => Ok (S (length tr))
      | BrowserNewContext _ _ _ => Ok (S (length tr))
      | ContextNewPage _ => Ok (S (length tr))
      | PageGoto _ _ _ => Ok tt
      | LocatorCount _ _ =>
          Ok (match anchor_href web with Some _ => 1 | None => 0 end)
      | LocatorGetAttribute _ _ _ => Ok (anchor_href web)
      | LocatorClick _ _ _ => Ok tt
      | LocatorIsVisible _ selector => Ok (shows web selector)
      | GetByTextClick _ _ _ => Raise "Timeout 2000ms exceeded."
      | ExpectPage _ => Ok (S (length tr))
      | PageWaitForLoadState _ _ => Ok tt
      | BrowserClose _ => Ok tt
      | GoogleSearch _ _ => Ok (Items <$> shopping_results web)
      end
  end.

Definition look (web : Web) (T : Type) (tr : list event) (q : query T) : T :=
  match q in query T return T with
  | Getenv name =>
      if String.eqb name "SERPAPI_KEY" then serpapi_key web else None
  | PageUrl pg =>
      match last_goto pg tr with
      | Some url => lands_on web url
      | None => "about:blank"
      end
  end.

Definition world_of (web : Web) : World :=
  {| unquote := percent_decode;
     href_q := first_q;
     act := answer web;
     obs := look web |}.

Definition no_fault (T : Type) (c : call T) : option exn := None.

(** A product record as the search API returns it. *)
Definition product (title price link : string) : item :=
  Object (<["title" := Str title]>
            (<["price" := Str price]> (<["link" := Str link]> ∅))).

Definition unlinked_product (title price : string) : item :=
  Object (<["title" := Str title]> (<["price" := Str price]> ∅)).

(** Eight results for "red sneakers", seven of them with a link. *)
Definition red_sneakers : list item :=
  [ product "Runner 1" "$40" "https://shop.example/item/1";
    product "Runner 2" "$41" "https://shop.example/item/2";
    unlinked_product "Runner 3" "$42";
    product "Runner 4" "$43" "https://shop.example/item/4";
    product "Runner 5" "$44" "https://shop.example/item/5";
    product "Runner 6" "$45" "https://shop.example/item/6";
    product "Runner 7" "$46" "https://shop.example/item/7";
    product "Runner 8" "$47" "https://shop.example/item/8" ].

(** A shop whose product pages show an "Add to Bag" button only. *)
Definition shop : Web :=
  {| lands_on := fun url => url;
     anchor_href := None;
     shows := fun selector => String.eqb selector "button:has-text('Add to Bag')";
     serpapi_key := Some "test-key";
     shopping_results := Some red_sneakers;
     fault := no_fault |}.

(** The same shop on a machine where Chromium was never installed: every
    browser launch fails. *)
Definition launch_fault (T : Type) (c : call T) : option exn :=
  match c with
  | ChromiumLaunch _ _ => Some "BrowserType.launch: Executable doesn't exist"
  | _ => None
  end.

Definition shop_without_chromium : Web :=
  {| lands_on := lands_on shop; anchor_href := anchor_href shop;
     shows := shows shop; serpapi_key := serpapi_key shop;
     shopping_results := shopping_results shop;
     fault := launch_fault |}.

(** A search-engine link on a machine whose headless navigation times out. *)
Definition headless_timeout (T : Type) (c : call T) : option exn :=
  match c with
  | PageGoto _ _ timeout =>
      if N.eqb timeout 30000 then Some "Timeout 30000ms exceeded." else None
  | _ => None
  end.

Definition shop_behind_slow_search : Web :=
  {| lands_on := lands_on shop; anchor_href := anchor_href shop;
     shows := shows shop; serpapi_key := serpapi_key shop;
     shopping_results := shopping_results shop;
     fault := headless_timeout |}.

(** A machine on which a launched browser cannot open a page. *)
Definition new_page_fault (T : Type) (c : call T) : option exn :=
  match c with
  | BrowserNewPage _ _ => Some "Browser.new_page: Target closed"
  | _ => None
  end.

Definition shop_with_crashing_pages : Web :=
  {| lands_on := lands_on shop; anchor_href := anchor_href shop;
     shows := shows shop; serpapi_key := serpapi_key shop;
     shopping_results := shopping_results shop;
     fault := new_page_fault |}.

Definition search_link : string :=
  "https://www.google.com/url?q=https://shop.example/item/42".

(** A link shortener that forwards to a search-engine product page, whose
    first redirect anchor points at the shop. *)
Definition short_link : string := "https://short.example/abc".

Definition shortener : Web :=
  {| lands_on := fun url =>
       if String.eqb url short_link
       then "https://www.google.com/shopping/product/1"
       else url;
     anchor_href := Some "/url?q=https://shop.example/item/42&sa=U";
     shows := shows shop; serpapi_key := serpapi_key shop;
     shopping_results := shopping_results shop;
     fault := no_fault |}.

(** The state a first navigation leaves behind when Chromium is missing. *)
Definition half_built : state :=
  snd (NavigateTool_execute (world_of shop_without_chromium)
         "https://shop.example/item/42" initial_state).

(** * Vocabulary of the properties *)

(** ** Cards *)

(** The raw link of an item, if it is an object that has one. *)
Definition link_of (p : item) : option value :=
  match p with
  | Object fields => raw_link_of fields
  | NotObject _ => None
  end.

(** An item has a usable link when it is an object whose [link] or
    [product_link] is truthy (for a [str]: not empty). *)
Definition has_link (p : item) : Prop := is_Some (link_of p).

#[global] Instance has_link_dec (p : item) : Decision (has_link p) :=
  decide (is_Some (link_of p)).

(** An item the loop passes over: an object without usable link. *)
Definition unlinked (p : item) : bool :=
  match p with
  | Object fields =>
      match raw_link_of fields with
      | None => true
      | Some _ => false
      end
  | NotObject _ => false
  end.

(** An item that is a JSON object. *)
Definition is_object (p : item) : bool :=
  match p with
  | Object _ => true
  | NotObject _ => false
  end.

(** An item the loop can read without raising: an object whose raw link,
    if it has one, is a [str]. *)
Definition well_formed (p : item) : bool :=
  match p with
  | Object fields =>
      match raw_link_of fields with
      | Some (NonStr _ _ _) => false
      | _ => true
      end
  | NotObject _ => false
  end.

(** A response on which everything after the [try] runs without raising:
    no results, a falsy value, or an array of well-formed items. *)
Definition well_formed_response (response : option results_value) : bool :=
  match response with
  | None => true
  | Some (Items results) => forallb well_formed results
  | Some (NotArray truth _) => negb truth
  end.

(** The items of a response, none when it holds no array. *)
Definition items_of (response : option results_value) : list item :=
  match response with
  | Some (Items results) => results
  | _ => []
  end.

(** The four texts of an item that a card displays. *)
Definition displayed (p : item) : list string :=
  match p with
  | Object fields =>
      [ text_of (get_or fields "thumbnail" "");
        text_of (get_or fields "title" "Unknown");
        text_of (get_or fields "price" "Check Site");
        text_of (get_or fields "source" "Web") ]
  | NotObject _ => []
  end.

(** No displayed text of the item holds a [<]: it brings no markup of its
    own into the card. *)
Definition markup_free (p : item) : bool :=
  forallb (fun text => negb (contains "<" text)) (displayed p).

(** The card the loop appends for an item; an item without usable link is
    given the card it would have with an empty link. *)
Definition card_of (p : item) : string :=
  match p with
  | Object fields =>
      card_html (text_of (get_or fields "thumbnail" ""))
                (text_of (get_or fields "title" "Unknown"))
                (text_of (get_or fields "price" "Check Site"))
                (text_of (get_or fields "source" "Web"))
                (match raw_link_of fields with
                 | Some (Str raw_link) => quote raw_link
                 | _ => ""
                 end)
  | NotObject _ => ""
  end.

(** The items that get a card: the first six that have a usable link. *)
Definition shown (results : list item) : list item :=
  take 6 (filter has_link results).

(** The opening tag of a card, and the number of card elements of an HTML
    text: the occurrences of that tag. *)
Definition card_opener : string :=
  "<div class=" +:+ dquote +:+ "card" +:+ dquote +:+ ">".

Definition card_elements (html : string) : nat :=
  count_occurrences card_opener html.

(** The start of a card button whose link is empty. *)
Definition empty_buy_button : string :=
  "<button class=" +:+ dquote +:+ "buy-btn" +:+ dquote
  +:+ " onclick=" +:+ dquote +:+ "triggerAutoBuy('')".

(** The card template cut at its placeholders: the fixed texts before the
    image, between image and title, and so on up to the text after the
    link. *)
Definition card_text0 : string :=
  nl +:+ line 12 ("<div class=" +:+ dquote +:+ "card" +:+ dquote +:+ ">")
  +:+ spaces 16 +:+ "<div class=" +:+ dquote +:+ "image-container" +:+ dquote
  +:+ "><img src=" +:+ dquote.

Definition card_text1 : string := dquote +:+ " alt=" +:+ dquote.

Definition card_text2 : string :=
  dquote +:+ "></div>" +:+ nl
  +:+ line 16 ("<div class=" +:+ dquote +:+ "meta" +:+ dquote +:+ ">")
  +:+ spaces 20 +:+ "<div class=" +:+ dquote +:+ "title" +:+ dquote +:+ ">".

Definition card_text3 : string :=
  "</div>" +:+ nl
  +:+ spaces 20 +:+ "<div class=" +:+ dquote +:+ "price" +:+ dquote +:+ ">".

Definition card_text4 : string :=
  "</div>" +:+ nl
  +:+ spaces 20 +:+ "<div class=" +:+ dquote +:+ "store" +:+ dquote +:+ ">".

Definition card_text5 : string :=
  "</div>" +:+ nl
  +:+ spaces 20 +:+ "<button class=" +:+ dquote +:+ "buy-btn" +:+ dquote
  +:+ " onclick=" +:+ dquote +:+ "triggerAutoBuy('".

Definition card_text6 : string :=
  "')" +:+ dquote +:+ ">" +:+ nl
  +:+ line 24 "Auto-Buy 🤖"
  +:+ line 20 "</button>"
  +:+ line 16 "</div>"
  +:+ line 12 "</div>"
  +:+ spaces 12.

(** How many occurrences of [needle] in [a +:+ b] start inside [a]. *)
Fixpoint starting_in (needle a b : string) : nat :=
  match a with
  | EmptyString => 0
  | String _ a' =>
      (if String.prefix needle (a +:+ b) then 1 else 0)
      + starting_in needle a' b
  end.

(** [''.join(parts)] *)
Fixpoint concat_all (parts : list string) : string :=
  match parts with
  | [] => ""
  | s :: parts' => s +:+ concat_all parts'
  end.

(** The fragment made of the given cards. *)
Definition grid (cards : list string) : string :=
  "<div class='grid-container'>" +:+ concat_all cards +:+ "</div>".

(** *** Responses that are not what the tool expects *)

(** The shop with another search response. *)
Definition shop_answering (results : list item) : Web :=
  {| lands_on := lands_on shop; anchor_href := anchor_href shop;
     shows := shows shop; serpapi_key := serpapi_key shop;
     shopping_results := Some results;
     fault := fault shop |}.

(** Six linked results, the second of which carries markup in its price:
    a closing tag and the opening tag of a card. *)
Definition marked_up_sneakers : list item :=
  [ product "Runner 1" "$40" "https://shop.example/item/1";
    product "Runner 2" ("$41</div>" +:+ card_opener)
      "https://shop.example/item/2";
    product "Runner 4" "$43" "https://shop.example/item/4";
    product "Runner 5" "$44" "https://shop.example/item/5";
    product "Runner 6" "$45" "https://shop.example/item/6";
    product "Runner 7" "$46" "https://shop.example/item/7" ].

(** A result without link, followed by a linked result whose store name
    holds the markup of a card for the first. *)
Definition ghost : item := unlinked_product "Ghost" "$1".

Definition haunted_sneakers : list item :=
  [ ghost;
    Object (<["title" := Str "Runner 2"]>
              (<["price" := Str "$41"]>
                 (<["source" := Str ("Web</div>" +:+ card_of ghost)]>
                    (<["link" := Str "https://shop.example/item/2"]> ∅)))) ].


Definition sneakers_with_numeric_link : list item :=
  [ product "Runner 1" "$40" "https://shop.example/item/1";
    Object (<["title" := Str "Runner 2"]>
              (<["link" := NonStr true "12345"
                             "quote_from_bytes() expected bytes"]> ∅)) ].

(** ** Histories *)

(** The history of [st'] is that of [st] followed by events that all
    satisfy [P]. *)
Definition grows (P : event -> Prop) (st st' : state) : Prop :=
  exists evs, trace st' = trace st ++ evs /\ Forall P evs.

(** Whatever its outcome, [m] only adds events that satisfy [P]. *)
Definition emits {A} (P : event -> Prop) (m : M A) : Prop :=
  forall st, grows P st (snd (m st)).

(** Whatever its outcome, [m] leaves the shared browser state alone. *)
Definition keeps {A} (m : M A) : Prop :=
  forall st, shared (snd (m st)) = shared st.

(** Events only the headless resolver produces: its two timeouts and its
    unforced click tell its page operations from those on the visible
    page. *)
Definition resolver_event (e : event) : bool :=
  match e with
  | Ev c _ =>
      match c with
      | AsyncPlaywrightEnter | AsyncPlaywrightExit _ => true
      | ChromiumLaunch _ headless => headless
      | BrowserNewPage _ _ => true
      | PageGoto _ _ timeout => N.eqb timeout 30000
      | LocatorCount _ _ | LocatorGetAttribute _ _ _ => true
      | LocatorClick _ _ force => negb force
      | ExpectPage _ | PageWaitForLoadState _ _ | BrowserClose _ => true
      | _ => false
      end
  | EvSleep _ => false
  end.

(** Events that create (part of) the visible session. *)
Definition session_event (e : event) : bool :=
  match e with
  | Ev c _ =>
      match c with
      | AsyncPlaywrightStart => true
      | ChromiumLaunch _ headless => negb headless
      | BrowserNewContext _ _ _ | ContextNewPage _ => true
      | _ => false
      end
  | EvSleep _ => false
  end.

(** Launches of a visible browser. *)
Definition visible_launch (e : event) : bool :=
  match e with
  | Ev c _ =>
      match c with
      | ChromiumLaunch _ headless => negb headless
      | _ => false
      end
  | EvSleep _ => false
  end.

(** Pages opened in a browsing context of the visible browser. *)
Definition visible_page_opened (e : event) : bool :=
  match e with
  | Ev c _ => match c with ContextNewPage _ => true | _ => false end
  | EvSleep _ => false
  end.

(** The page a visible-session operation acts on. *)
Definition visible_page_of (e : event) : option handle :=
  match e with
  | Ev c _ =>
      match c with
      | PageGoto pg _ timeout => if N.eqb timeout 60000 then Some pg else None
      | GetByTextClick pg _ _ => Some pg
      | LocatorIsVisible pg _ => Some pg
      | LocatorClick pg _ force => if force then Some pg else None
      | _ => None
      end
  | EvSleep _ => None
  end.

(** The URL the visible browser is sent to. *)
Definition visible_goto_url (e : event) : option string :=
  match e with
  | Ev c _ =>
      match c with
      | PageGoto _ url timeout => if N.eqb timeout 60000 then Some url else None
      | _ => None
      end
  | EvSleep _ => None
  end.

(** How many events of a kind a history holds. *)
Definition count (f : event -> bool) (tr : list event) : nat :=
  length (List.filter f tr).

(** ** The resolver's throwaway browser *)

(** The resolver's three acquisitions succeed, yielding driver [p], browser
    [b] and page [pg]. *)
Definition headless_prefix (p b pg : handle) : list event :=
  [ Ev AsyncPlaywrightEnter (Ok p);
    Ev (ChromiumLaunch p true) (Ok b);
    Ev (BrowserNewPage b USER_AGENT) (Ok pg) ].

Definition opens_headless_page (w : World) (tr : list event)
    (p b pg : handle) : Prop :=
  act w _ tr AsyncPlaywrightEnter = Ok p
  /\ act w _ (tr ++ [Ev AsyncPlaywrightEnter (Ok p)]) (ChromiumLaunch p true)
     = Ok b
  /\ act w _ ((tr ++ [Ev AsyncPlaywrightEnter (Ok p)])
                ++ [Ev (ChromiumLaunch p true) (Ok b)])
       (BrowserNewPage b USER_AGENT) = Ok pg.

(** Closing the browser and leaving the [async with] block never fail. *)
Definition releases (w : World) (p b : handle) : Prop :=
  (forall tr, act w _ tr (BrowserClose b) = Ok tt)
  /\ (forall tr, act w _ tr (AsyncPlaywrightExit p) = Ok tt).

(** The state in which the body of the resolver's [try] starts. *)
Definition opened (st : state) (p b pg : handle) : state :=
  log (Ev (BrowserNewPage b USER_AGENT) (Ok pg))
    (log (Ev (ChromiumLaunch p true) (Ok b))
       (log (Ev AsyncPlaywrightEnter (Ok p)) st)).

(** Calls of [browser.close()]. *)
Definition closes_browser (e : event) : bool :=
  match e with
  | Ev c _ => match c with BrowserClose _ => true | _ => false end
  | EvSleep _ => false
  end.

(** ** The clicker's checks *)

(** Visibility checks that found nothing, one per selector, in order. *)
Definition probes (pg : handle) (sels : list string) : list event :=
  (fun s => Ev (LocatorIsVisible pg s) (Ok false)) <$> sels.

(** ** The three steps of [NavigateTool.execute]

    The body of the tool, cut at its two section comments; that the tool is
    their sequence is [NavigateTool_execute_steps] below. *)

(** "Step 1": resolve the decoded URL if it contains [google.com]. *)
Definition resolution_step (w : World) (url : string) : M string :=
  let decoded_url := unquote w url in
  if contains "google.com" decoded_url
  then resolve_url_headless w decoded_url
  else ret decoded_url.

(** The lazy creation of the visible session. *)
Definition session_step (w : World) : M unit :=
  s <- get_shared;;
  match playwright s with
  | None => launch_visible_browser w
  | Some _ => ret tt
  end.

(** Loading the clean URL in the shared page, under the tool's [try]. *)
Definition goto_step (w : World) (clean_url : string) : M string :=
  s <- get_shared;;
  try_except
    (match page s with
     | None => raise "'NoneType' object has no attribute 'goto'"
     | Some pg =>
         perform w (PageGoto pg clean_url 60000);;;
         try_except (perform w (GetByTextClick pg "Accept" 2000))
                    (fun _ => ret tt);;;
         ret ("✅ Browser Opened. Navigated to: " +:+ clean_url)
     end)
    (fun e => ret ("Navigation Error: " +:+ e)).

(** What the tool returns when the shared state holds no page. *)
Definition no_page_error : string :=
  "Navigation Error: 'NoneType' object has no attribute 'goto'".

(** An event that neither creates a visible session nor touches a visible
    page other than [pg]. *)
Definition quiet (pg : option handle) (e : event) : Prop :=
  session_event e = false
  /\ forall pg', visible_page_of e = Some pg' -> pg = Some pg'.

(** An event that is not the resolver's and sends the visible browser
    nowhere but to [url]. *)
Definition direct (url : string) (e : event) : Prop :=
  resolver_event e = false
  /\ forall u, visible_goto_url e = Some u -> u = url.

(** The invariant of the shared session: at most one visible browser was
    ever launched and one page opened in it, and none while the driver
    handle is still [None]. *)
Definition one_session (st : state) : Prop :=
  count visible_launch (trace st) <= 1
  /\ count visible_page_opened (trace st) <= 1
  /\ (playwright (shared st) = None ->
      count visible_launch (trace st) = 0
      /\ count visible_page_opened (trace st) = 0).


Definition navigation_message (s : string) : Prop :=
  (exists clean_url, s = "✅ Browser Opened. Navigated to: " +:+ clean_url)
  \/ (exists e, s = "Navigation Error: " +:+ e).


(** ** Vocabulary of the further properties *)

(** Every character of a string passes a test. *)
Fixpoint string_forallb (f : ascii -> bool) (s : string) : bool :=
  match s with
  | EmptyString => true
  | String c s' => f c && string_forallb f s'
  end.

(** The characters [quote] can produce: the always-safe ones, [/] and the
    [%] of an escape. *)
Definition url_char (c : ascii) : bool :=
  always_safe c || (nat_of_ascii c =? 47) || (nat_of_ascii c =? 37).

(** The visible session is created in four calls that all succeed,
    yielding driver [p], browser [b], context [c] and page [pg]. *)
Definition session_prefix (p b c pg : handle) : list event :=
  [ Ev AsyncPlaywrightStart (Ok p);
    Ev (ChromiumLaunch p false) (Ok b);
    Ev (BrowserNewContext b 1280 720) (Ok c);
    Ev (ContextNewPage c) (Ok pg) ].

Definition creates_session (w : World) (tr : list event)
    (p b c pg : handle) : Prop :=
  act w _ tr AsyncPlaywrightStart = Ok p
  /\ act w _ (tr ++ [Ev AsyncPlaywrightStart (Ok p)]) (ChromiumLaunch p false)
     = Ok b
  /\ act w _ ((tr ++ [Ev AsyncPlaywrightStart (Ok p)])
                ++ [Ev (ChromiumLaunch p false) (Ok b)])
       (BrowserNewContext b 1280 720) = Ok c
  /\ act w _ (((tr ++ [Ev AsyncPlaywrightStart (Ok p)])
                 ++ [Ev (ChromiumLaunch p false) (Ok b)])
                ++ [Ev (BrowserNewContext b 1280 720) (Ok c)])
       (ContextNewPage c) = Ok pg.

(** Entering and leaving the resolver's Playwright context. *)
Definition context_event (e : event) : bool :=
  match e with
  | Ev c _ =>
      match c with
      | AsyncPlaywrightEnter | AsyncPlaywrightExit _ => true
      | _ => false
      end
  | EvSleep _ => false
  end.

(** A headless page that could be opened. *)
Definition opens_page (e : event) : bool :=
  match e with
  | Ev c r => match c with BrowserNewPage _ _ => is_ok r | _ => false end
  | EvSleep _ => false
  end.

(** Forced clicks (the clicker's) and pauses. *)
Definition forced_click (e : event) : bool :=
  match e with
  | Ev c _ => match c with LocatorClick _ _ force => force | _ => false end
  | EvSleep _ => false
  end.

Definition pauses (e : event) : bool :=
  match e with
  | Ev _ _ => false
  | EvSleep _ => true
  end.

(** ** Further simulated worlds *)

(** The shop on a machine without [SERPAPI_KEY]. *)
Definition keyless_shop : Web :=
  {| lands_on := lands_on shop; anchor_href := anchor_href shop;
     shows := shows shop; serpapi_key := None;
     shopping_results := shopping_results shop;
     fault := no_fault |}.



(** A machine on which the Playwright driver cannot be started. *)
Definition start_fault (T : Type) (c : call T) : option exn :=
  match c with
  | AsyncPlaywrightStart => Some "Driver not found"
  | _ => None
  end.

Definition shop_without_driver : Web :=
  {| lands_on := lands_on shop; anchor_href := anchor_href shop;
     shows := shows shop; serpapi_key := serpapi_key shop;
     shopping_results := shopping_results shop;
     fault := start_fault |}.

(** A shop whose pages show no add-to-cart control at all. *)
Definition bare_shop : Web :=
  {| lands_on := lands_on shop; anchor_href := anchor_href shop;
     shows := fun _ => false; serpapi_key := serpapi_key shop;
     shopping_results := shopping_results shop;
     fault := no_fault |}.

(** A shop whose window the user closed: visibility checks fail. *)
Definition closed_fault (T : Type) (c : call T) : option exn :=
  match c with
  | LocatorIsVisible _ _ =>
      Some "Target page, context or browser has been closed"
  | _ => None
  end.

Definition shop_with_closed_window : Web :=
  {| lands_on := lands_on shop; anchor_href := anchor_href shop;
     shows := shows shop; serpapi_key := serpapi_key shop;
     shopping_results := shopping_results shop;
     fault := closed_fault |}.

(** A search-engine product page without redirect anchor; clicking its
    offer row opens the shop's product page in a new tab. *)
Definition offer_page : Web :=
  {| lands_on := fun _ => "https://www.google.com/shopping/product/1";
     anchor_href := None;
     shows := shows shop; serpapi_key := serpapi_key shop;
     shopping_results := shopping_results shop;
     fault := no_fault |}.

Definition look_with_popup (web : Web) (T : Type) (tr : list event)
    (q : query T) : T :=
  match q in query T return T with
  | Getenv name => look web _ tr (Getenv name)
  | PageUrl pg =>
      match last_goto pg tr with
      | Some url => lands_on web url
      | None => "https://shop.example/item/42"
      end
  end.

Definition offer_world : World :=
  {| unquote := percent_decode;
     href_q := first_q;
     act := answer offer_page;
     obs := look_with_popup offer_page |}.


(** * Properties *)

(** ** Strings *)

Lemma append_cons (c : ascii) (s t : string) :
  String c s +:+ t = String c (s +:+ t).
Proof. reflexivity. Qed.

Lemma append_nil_l (s : string) : "" +:+ s = s.
Proof. reflexivity. Qed.

Lemma append_nil_r (s : string) : s +:+ "" = s.
Proof.
  induction s as [|c s IH]; [reflexivity|]. now rewrite append_cons, IH.
Qed.

Lemma append_assoc (a b c : string) : (a +:+ b) +:+ c = a +:+ (b +:+ c).
Proof.
  induction a as [|x a IH]; [reflexivity|]. now rewrite !append_cons, IH.
Qed.

Lemma prefix_true_iff (needle hay : string) :
  String.prefix needle hay = true <-> exists rest, hay = needle +:+ rest.
Proof.
  revert hay. induction needle as [|c needle IH]; intros hay.
  - split; [intros _; now exists hay | intros _; now destruct hay].
  - destruct hay as [|d hay]; simpl.
    + split; [discriminate | intros [rest H]; discriminate].
    + destruct (ascii_dec c d) as [->|Hne].
      * rewrite IH. split; intros [rest H]; exists rest.
        -- now rewrite H.
        -- rewrite append_cons in H. now injection H.
      * split; [discriminate|].
        intros [rest H]. rewrite append_cons in H. injection H. congruence.
Qed.

Lemma contains_nil (needle : string) :
  contains needle "" = String.prefix needle "".
Proof. change (contains needle "") with (if String.prefix needle "" then true else false). now destruct (String.prefix needle ""). Qed.

Lemma contains_cons (needle : string) (c : ascii) (hay : string) :
  contains needle (String c hay)
  = if String.prefix needle (String c hay) then true else contains needle hay.
Proof. reflexivity. Qed.

(** [in] is substring containment and nothing more: the needle may sit
    anywhere in the haystack. *)
Lemma contains_true_iff (needle hay : string) :
  contains needle hay = true
  <-> exists before after, hay = before +:+ needle +:+ after.
Proof.
  induction hay as [|c hay IH].
  - rewrite contains_nil, prefix_true_iff. split.
    + intros [rest H]. now exists "", rest.
    + intros (before & after & H).
      destruct before; [now exists after | discriminate].
  - rewrite contains_cons.
    destruct (String.prefix needle (String c hay)) eqn:Hp.
    + apply prefix_true_iff in Hp as [rest Hp].
      split; [intros _; now exists "", rest | reflexivity].
    + rewrite IH. split.
      * intros (before & after & ->). now exists (String c before), after.
      * intros (before & after & H). destruct before as [|d before].
        -- rewrite append_nil_l in H.
           assert (String.prefix needle (String c hay) = true) as Hq
             by (apply prefix_true_iff; now exists after).
           congruence.
        -- rewrite append_cons in H. injection H as _ ->.
           now exists before, after.
Qed.

(** ** Encoded links *)

Lemma quote_cons (c : ascii) (s : string) :
  quote (String c s)
  = if always_safe c || (nat_of_ascii c =? 47)
    then String c (quote s)
    else String "%"%char
           (String (hex_digit (nat_of_ascii c / 16))
              (String (hex_digit (nat_of_ascii c mod 16)) (quote s))).
Proof. reflexivity. Qed.

Lemma url_char_quoted_char (c : ascii) (t : string) :
  string_forallb url_char
    (if always_safe c || (nat_of_ascii c =? 47)
     then String c t
     else String "%"%char
            (String (hex_digit (nat_of_ascii c / 16))
               (String (hex_digit (nat_of_ascii c mod 16)) t)))
  = string_forallb url_char t.
Proof.
  destruct c as [[] [] [] [] [] [] [] []]; reflexivity.
Qed.

Lemma string_forallb_excludes (f : ascii -> bool) (c : ascii) (s : string) :
  string_forallb f s = true -> f c = false ->
  contains (String c EmptyString) s = false.
Proof.
  intros Hall Hc. induction s as [|d s IH]; [reflexivity|].
  cbn [string_forallb] in Hall. apply andb_prop in Hall as [Hd Hs].
  rewrite contains_cons. cbn [String.prefix].
  destruct (ascii_dec c d) as [->|_]; [congruence | now apply IH].
Qed.

(** ** The search renderer *)

Lemma raw_link_of_absent (p : gmap string value) :
  p !! "link" = None -> p !! "product_link" = None -> raw_link_of p = None.
Proof. intros H1 H2. unfold raw_link_of, or_else. now rewrite H1, H2. Qed.

Lemma raw_link_of_truthy (p : gmap string value) (v : value) :
  raw_link_of p = Some v -> truth_of v = true.
Proof.
  unfold raw_link_of. destruct (or_else _ _) as [u|]; [|discriminate].
  destruct (truth_of u) eqn:E; [|discriminate]. now intros [= <-].
Qed.

Lemma render_cards_cons (p : item) (rest : list item) (count : nat)
    (html : string) :
  render_cards (p :: rest) count html
  = if 6 <=? count then Ok html
    else match p with
         | NotObject e => Raise e
         | Object fields =>
             match raw_link_of fields with
             | None => render_cards rest count html
             | Some raw_link =>
                 match quote_value raw_link with
                 | Raise e => Raise e
                 | Ok encoded_link =>
                     render_cards rest (S count)
                       (html +:+ card_html
                                   (text_of (get_or fields "thumbnail" ""))
                                   (text_of (get_or fields "title" "Unknown"))
                                   (text_of (get_or fields "price" "Check Site"))
                                   (text_of (get_or fields "source" "Web"))
                                   encoded_link)
                 end
             end
         end.
Proof. reflexivity. Qed.

Arguments render_cards : simpl never.

Lemma render_cards_full (results : list item) (count : nat) (html : string) :
  6 <= count -> render_cards results count html = Ok html.
Proof.
  intros H. destruct results as [|p rest]; [reflexivity|].
  rewrite render_cards_cons. apply Nat.leb_le in H. now rewrite H.
Qed.

Lemma has_link_linked (fields : gmap string value) (raw : value) :
  raw_link_of fields = Some raw -> has_link (Object fields).
Proof. intros H. unfold has_link. cbn. rewrite H. eauto. Qed.

Lemma has_link_unlinked (fields : gmap string value) :
  raw_link_of fields = None -> ~ has_link (Object fields).
Proof. intros H. unfold has_link. cbn. rewrite H. apply is_Some_None. Qed.

Lemma has_link_not_object (e : exn) : ~ has_link (NotObject e).
Proof. unfold has_link. cbn. apply is_Some_None. Qed.

(** When the loop ends without raising, it has appended the cards of the
    linked items it met, up to the cap, and nothing else. *)
Lemma render_cards_take (results : list item) (count : nat)
    (html out : string) :
  render_cards results count html = Ok out ->
  out = html
        +:+ concat_all (card_of <$> take (6 - count) (filter has_link results)).
Proof.
  revert count html. induction results as [|p rest IH]; intros count html.
  - intros [= <-]. rewrite filter_nil, take_nil. simpl.
    now rewrite append_nil_r.
  - rewrite render_cards_cons. destruct (6 <=? count) eqn:Hc.
    + intros [= <-]. apply Nat.leb_le in Hc.
      replace (6 - count) with 0 by lia.
      rewrite take_0. simpl. now rewrite append_nil_r.
    + apply Nat.leb_gt in Hc. destruct p as [fields|e]; [|discriminate].
      destruct (raw_link_of fields) as [raw|] eqn:Hraw.
      * destruct raw as [s|truth text e]; cbn [quote_value]; [|discriminate].
        intros Hout. apply IH in Hout.
        rewrite filter_cons_True by (eapply has_link_linked; eauto).
        replace (6 - count) with (S (6 - S count)) by lia.
        rewrite firstn_cons, fmap_cons. simpl concat_all.
        rewrite Hout, append_assoc. unfold card_of at 2. now rewrite Hraw.
      * rewrite filter_cons_False by (now apply has_link_unlinked).
        apply IH.
Qed.

(** On well-formed items the loop does not raise. *)
Lemma render_cards_returns (results : list item) (count : nat)
    (html : string) :
  forallb well_formed results = true ->
  exists out, render_cards results count html = Ok out.
Proof.
  revert count html. induction results as [|p rest IH]; intros count html H.
  - now exists html.
  - cbn [forallb] in H. apply andb_prop in H as [Hp Hrest].
    rewrite render_cards_cons.
    destruct (6 <=? count); [now exists html|].
    destruct p as [fields|e]; [|discriminate Hp]. cbn [well_formed] in Hp.
    destruct (raw_link_of fields) as [[s|truth text e]|];
      try discriminate Hp; cbn [quote_value]; now apply IH.
Qed.

(** When the loop ends without raising, the items it has rendered were
    well-formed. *)
Lemma render_cards_rendered (results : list item) (count : nat)
    (html out : string) :
  render_cards results count html = Ok out ->
  Forall (fun p => well_formed p = true)
    (take (6 - count) (filter has_link results)).
Proof.
  revert count html. induction results as [|p rest IH]; intros count html.
  - intros _. rewrite filter_nil, take_nil. constructor.
  - rewrite render_cards_cons. destruct (6 <=? count) eqn:Hc.
    + intros _. apply Nat.leb_le in Hc.
      replace (6 - count) with 0 by lia. rewrite take_0. constructor.
    + apply Nat.leb_gt in Hc. destruct p as [fields|e]; [|discriminate].
      destruct (raw_link_of fields) as [raw|] eqn:Hraw.
      * destruct raw as [s|truth text e]; cbn [quote_value]; [|discriminate].
        intros Hout. apply IH in Hout.
        rewrite filter_cons_True by (eapply has_link_linked; eauto).
        replace (6 - count) with (S (6 - S count)) by lia.
        rewrite firstn_cons. constructor; [|exact Hout].
        cbn [well_formed]. now rewrite Hraw.
      * rewrite filter_cons_False by (now apply has_link_unlinked).
        apply IH.
Qed.

Lemma render_results_well_formed (response : option results_value) :
  well_formed_response response = true ->
  render_results (default (Items []) response)
  = Ok (match items_of response with
        | [] => "No products found."
        | results => grid (card_of <$> shown results)
        end).
Proof.
  destruct response as [[results|truth e]|];
    cbn [well_formed_response default from_option id items_of].
  - intros Hwf. destruct results as [|p rest]; [reflexivity|].
    unfold render_results. cbn [results_truthy negb].
    destruct (render_cards_returns (p :: rest) 0
                "<div class='grid-container'>" Hwf) as [out Hout].
    rewrite Hout. apply render_cards_take in Hout. subst out.
    unfold grid, shown. now rewrite append_assoc.
  - intros Ht. apply negb_true_iff in Ht. now subst truth.
  - reflexivity.
Qed.

(** When what follows the [try] returns, it returns the grid of the cards
    of the items shown (or the plain message), and those items were
    well-formed. *)
Lemma render_results_returned (response : option results_value)
    (html : string) :
  render_results (default (Items []) response) = Ok html ->
  html = match items_of response with
         | [] => "No products found."
         | results => grid (card_of <$> shown results)
         end
  /\ Forall (fun p => well_formed p = true) (shown (items_of response)).
Proof.
  destruct response as [[results|truth e]|];
    cbn [default from_option id items_of].
  - destruct results as [|p rest].
    + intros [= <-]. split; [reflexivity | constructor].
    + unfold render_results. cbn [results_truthy negb].
      destruct (render_cards (p :: rest) 0 "<div class='grid-container'>")
        as [out|e] eqn:Hout; [|discriminate].
      intros [= <-]. split.
      * apply render_cards_take in Hout. subst out.
        unfold grid, shown. now rewrite append_assoc.
      * now apply render_cards_rendered in Hout.
  - destruct truth; [discriminate|].
    intros [= <-]. split; [reflexivity | constructor].
  - intros [= <-]. split; [reflexivity | constructor].
Qed.

(** What the tool does once the API key is set and the API answered. *)
Lemma VisualSearchTool_execute_answered (w : World) (q : string) (st : state)
    (key : string) (response : option results_value) :
  obs w _ (trace st) (Getenv "SERPAPI_KEY") = Some key ->
  truthy key = true ->
  act w _ (trace st) (GoogleSearch key q) = Ok response ->
  VisualSearchTool_execute w q st
  = (render_results (default (Items []) response),
     log (Ev (GoogleSearch key q) (Ok response)) st).
Proof.
  intros Hkey Htruthy Hsearch.
  unfold VisualSearchTool_execute, bind, observe, attempt, perform, ret, lift.
  cbn. rewrite Hkey, Htruthy. cbn. now rewrite Hsearch.
Qed.

Lemma shown_length (results : list item) :
  length (shown results) = 6 `min` length (filter has_link results).
Proof. unfold shown. apply length_take. Qed.

Lemma shown_has_link (results : list item) : Forall has_link (shown results).
Proof.
  apply Forall_forall. intros p Hp. unfold shown in Hp.
  apply elem_of_take in Hp as (i & Hp & _).
  apply list_elem_of_lookup_2, list_elem_of_filter in Hp. tauto.
Qed.

Lemma shown_sublist (results : list item) : shown results `sublist_of` results.
Proof.
  unfold shown. etransitivity; [apply sublist_take | apply sublist_filter].
Qed.

Lemma shown_elem_of (results : list item) (p : item) :
  p ∈ shown results -> p ∈ results.
Proof. intros H. eapply elem_of_sublist; [exact H | apply shown_sublist]. Qed.

(** ** Occurrences of a text in the fragment *)

Lemma count_occurrences_app (needle a b : string) :
  count_occurrences needle (a +:+ b)
  = starting_in needle a b + count_occurrences needle b.
Proof.
  induction a as [|c a IH]; [reflexivity|].
  rewrite append_cons. cbn [count_occurrences starting_in].
  rewrite IH, append_cons. lia.
Qed.

Lemma starting_in_app (needle a a' b : string) :
  starting_in needle (a +:+ a') b
  = starting_in needle a (a' +:+ b) + starting_in needle a' b.
Proof.
  induction a as [|c a IH]; [reflexivity|].
  rewrite append_cons. cbn [starting_in].
  rewrite IH, !append_cons, append_assoc. lia.
Qed.

Lemma contains_occurs (needle hay : string) :
  contains needle hay = true -> 0 < count_occurrences needle hay.
Proof.
  induction hay as [|c hay IH].
  - rewrite contains_nil. cbn [count_occurrences]. intros ->. lia.
  - rewrite contains_cons. cbn [count_occurrences].
    destruct (String.prefix needle (String c hay)); [lia|].
    intros H. apply IH in H. lia.
Qed.

Lemma contains_trans (a b c : string) :
  contains a b = true -> contains b c = true -> contains a c = true.
Proof.
  rewrite !contains_true_iff. intros (x & y & ->) (u & v & ->).
  exists (u +:+ x), (y +:+ v). now rewrite !append_assoc.
Qed.

Lemma no_angle_cons (c : ascii) (s : string) :
  contains "<" (String c s) = false ->
  c <> "<"%char /\ contains "<" s = false.
Proof.
  rewrite contains_cons. cbn [String.prefix].
  destruct (ascii_dec "<" c) as [<-|Hne].
  - now destruct s.
  - intros H. split; [congruence | exact H].
Qed.

(** A text without [<] holds the start of no tag. *)
Lemma starting_in_plain (needle a b : string) :
  String.prefix "<" needle = true ->
  contains "<" a = false ->
  starting_in needle a b = 0.
Proof.
  intros Hn. apply prefix_true_iff in Hn as [m ->].
  rewrite append_cons, append_nil_l.
  induction a as [|c a IH]; [reflexivity|].
  intros H. apply no_angle_cons in H as [Hc Ha].
  cbn [starting_in]. rewrite append_cons. cbn [String.prefix].
  destruct (ascii_dec "<" c) as [E|_]; [congruence|]. now rewrite IH.
Qed.

Lemma card_html_texts (img title price source encoded_link : string) :
  card_html img title price source encoded_link
  = card_text0 +:+ img +:+ card_text1 +:+ title +:+ card_text2 +:+ title
    +:+ card_text3 +:+ price +:+ card_text4 +:+ source +:+ card_text5
    +:+ encoded_link +:+ card_text6.
Proof.
  unfold card_html, line, card_text0, card_text1, card_text2, card_text3,
    card_text4, card_text5, card_text6.
  rewrite !append_assoc. reflexivity.
Qed.

(** The template holds one card opener, in its first text. *)
Lemma card_opener_in_texts :
  (forall b, starting_in card_opener card_text0 b = 1)
  /\ (forall b, starting_in card_opener card_text1 b = 0)
  /\ (forall b, starting_in card_opener card_text2 b = 0)
  /\ (forall b, starting_in card_opener card_text3 b = 0)
  /\ (forall b, starting_in card_opener card_text4 b = 0)
  /\ (forall b, starting_in card_opener card_text5 b = 0)
  /\ (forall b, starting_in card_opener card_text6 b = 0).
Proof. repeat split. Qed.

(** The template holds no button with an empty link: the only place where
    one could start is the end of the text before the link. *)
Lemma empty_buy_button_in_texts :
  (forall b, starting_in empty_buy_button card_text0 b = 0)
  /\ (forall b, starting_in empty_buy_button card_text1 b = 0)
  /\ (forall b, starting_in empty_buy_button card_text2 b = 0)
  /\ (forall b, starting_in empty_buy_button card_text3 b = 0)
  /\ (forall b, starting_in empty_buy_button card_text4 b = 0)
  /\ (forall c b, c <> "'"%char ->
        starting_in empty_buy_button card_text5 (String c b) = 0)
  /\ (forall b, starting_in empty_buy_button card_text6 b = 0).
Proof.
  repeat split. intros c b Hc.
  destruct c as [[] [] [] [] [] [] [] []]; try reflexivity.
  exfalso. now apply Hc.
Qed.

Lemma card_html_one_opener (img title price source link b : string) :
  contains "<" img = false -> contains "<" title = false ->
  contains "<" price = false -> contains "<" source = false ->
  contains "<" link = false ->
  starting_in card_opener (card_html img title price source link) b = 1.
Proof.
  intros Himg Htitle Hprice Hsource Hlink.
  destruct card_opener_in_texts as (H0 & H1 & H2 & H3 & H4 & H5 & H6).
  rewrite card_html_texts, !starting_in_app.
  rewrite H0, H1, H2, H3, H4, H5, H6.
  now rewrite !(starting_in_plain card_opener) by (reflexivity || assumption).
Qed.

Lemma card_html_no_empty_button (img title price source b : string)
    (c : ascii) (link : string) :
  contains "<" img = false -> contains "<" title = false ->
  contains "<" price = false -> contains "<" source = false ->
  contains "<" (String c link) = false -> c <> "'"%char ->
  starting_in empty_buy_button
    (card_html img title price source (String c link)) b = 0.
Proof.
  intros Himg Htitle Hprice Hsource Hlink Hc.
  destruct empty_buy_button_in_texts as (H0 & H1 & H2 & H3 & H4 & H5 & H6).
  rewrite card_html_texts, !starting_in_app.
  rewrite H0, H1, H2, H3, H4, H6. rewrite !append_cons, (H5 _ _ Hc).
  rewrite <- !append_cons.
  now rewrite !(starting_in_plain empty_buy_button)
    by (reflexivity || assumption).
Qed.

(** A card with an empty link holds such a button. *)
Lemma card_html_empty_button (img title price source : string) :
  contains empty_buy_button (card_html img title price source "") = true.
Proof.
  apply contains_true_iff.
  exists (card_text0 +:+ img +:+ card_text1 +:+ title +:+ card_text2
          +:+ title +:+ card_text3 +:+ price +:+ card_text4 +:+ source
          +:+ "</div>" +:+ nl +:+ spaces 20),
         (dquote +:+ ">" +:+ nl +:+ line 24 "Auto-Buy 🤖"
          +:+ line 20 "</button>" +:+ line 16 "</div>"
          +:+ line 12 "</div>" +:+ spaces 12).
  unfold card_html, line, empty_buy_button, card_text0, card_text1,
    card_text2, card_text3, card_text4.
  rewrite !append_assoc. reflexivity.
Qed.

Lemma count_occurrences_grid (needle : string) (k : nat)
    (cards : list string) :
  (forall b, starting_in needle "<div class='grid-container'>" b = 0) ->
  count_occurrences needle "</div>" = 0 ->
  Forall (fun c => forall b, starting_in needle c b = k) cards ->
  count_occurrences needle (grid cards) = k * length cards.
Proof.
  intros Hopen Hclose Hcards. unfold grid.
  rewrite count_occurrences_app, Hopen. cbn [Nat.add].
  induction Hcards as [|c cards Hc _ IH].
  - cbn [concat_all]. rewrite append_nil_l, Hclose. cbn. lia.
  - cbn [concat_all length]. rewrite append_assoc, count_occurrences_app.
    rewrite Hc, IH. lia.
Qed.

Lemma quote_url_chars (s : string) : string_forallb url_char (quote s) = true.
Proof.
  induction s as [|c s IH]; [reflexivity|].
  now rewrite quote_cons, url_char_quoted_char.
Qed.

Lemma quote_no_angle (s : string) : contains "<" (quote s) = false.
Proof.
  apply (string_forallb_excludes url_char); [apply quote_url_chars|reflexivity].
Qed.

Lemma quote_first_char (s : string) :
  truthy s = true ->
  exists c rest, quote s = String c rest /\ c <> "'"%char.
Proof.
  destruct s as [|d s]; [discriminate|]. intros _.
  pose proof (quote_url_chars (String d s)) as Hall.
  destruct (quote (String d s)) as [|c rest] eqn:Hq.
  - rewrite quote_cons in Hq. now destruct (always_safe d || _).
  - exists c, rest. split; [reflexivity|].
    cbn [string_forallb] in Hall. apply andb_prop in Hall as [Hc _].
    intros ->. discriminate Hc.
Qed.

Lemma markup_free_displayed (fields : gmap string value) :
  markup_free (Object fields) = true ->
  contains "<" (text_of (get_or fields "thumbnail" "")) = false
  /\ contains "<" (text_of (get_or fields "title" "Unknown")) = false
  /\ contains "<" (text_of (get_or fields "price" "Check Site")) = false
  /\ contains "<" (text_of (get_or fields "source" "Web")) = false.
Proof.
  unfold markup_free. cbn [displayed forallb]. intros H.
  repeat (apply andb_prop in H as [?%negb_true_iff H]). tauto.
Qed.

(** The card of a well-formed, markup-free item with a link holds exactly
    one card opener and no button with an empty link. *)
Lemma card_of_counts (p : item) (b : string) :
  has_link p -> well_formed p = true -> markup_free p = true ->
  starting_in card_opener (card_of p) b = 1
  /\ starting_in empty_buy_button (card_of p) b = 0.
Proof.
  intros Hlink Hwf Hfree. destruct p as [fields|e].
  2:{ now apply has_link_not_object in Hlink. }
  destruct (markup_free_displayed fields Hfree)
    as (Himg & Htitle & Hprice & Hsource).
  unfold card_of. cbn [well_formed] in Hwf.
  destruct (raw_link_of fields) as [[s|truth text e]|] eqn:Hraw.
  - apply raw_link_of_truthy in Hraw. cbn [truth_of] in Hraw.
    pose proof (quote_no_angle s) as Hq.
    destruct (quote_first_char s Hraw) as (c & rest & Hs & Hc).
    rewrite Hs in *. split.
    + now apply card_html_one_opener.
    + now apply card_html_no_empty_button.
  - discriminate Hwf.
  - now apply has_link_unlinked in Hraw.
Qed.

Lemma shown_cards_count (results : list item) :
  Forall (fun p => well_formed p = true) (shown results) ->
  forallb markup_free (shown results) = true ->
  Forall (fun c => forall b,
            starting_in card_opener c b = 1
            /\ starting_in empty_buy_button c b = 0)
    (card_of <$> shown results).
Proof.
  intros Hwf Hfree. rewrite forallb_forall in Hfree.
  rewrite Forall_forall in Hwf.
  apply Forall_fmap, Forall_forall. intros p Hp b.
  apply card_of_counts.
  - pose proof (shown_has_link results) as H.
    rewrite Forall_forall in H. now apply H.
  - now apply Hwf.
  - apply Hfree. now apply list_elem_of_In.
Qed.

(** C4 (as amended): on every well-formed search response (no results, or
    an array of objects whose links are text) [VisualSearchTool.execute]
    returns.  Whenever it returns, and the texts of the items shown hold no
    [<], the HTML fragment it returns holds exactly six card elements if at
    least six items have a usable link, and exactly as many card elements
    as there are such items otherwise; the fragment is the grid of the
    cards of the first six linked items.  A card element is counted in the
    returned text, as an occurrence of the card's opening tag. *)
Theorem visual_search_caps_cards_at_six (w : World) (q : string) (st : state)
    (key : string) (response : option results_value) :
  obs w _ (trace st) (Getenv "SERPAPI_KEY") = Some key ->
  truthy key = true ->
  act w _ (trace st) (GoogleSearch key q) = Ok response ->
  forallb markup_free (shown (items_of response)) = true ->
  let results := items_of response in
  let linked := length (filter has_link results) in
  (well_formed_response response = true ->
   exists html : string, fst (VisualSearchTool_execute w q st) = Ok html)
  /\ forall html : string,
       fst (VisualSearchTool_execute w q st) = Ok html ->
       html = match results with
              | [] => "No products found."
              | _ => grid (card_of <$> shown results)
              end
       /\ (6 <= linked -> card_elements html = 6)
       /\ (linked < 6 -> card_elements html = linked).
Proof.
  intros Hkey Htruthy Hsearch Hfree results linked.
  rewrite (VisualSearchTool_execute_answered w q st key response)
    by assumption.
  cbn [fst]. split.
  - intros Hwf. rewrite render_results_well_formed by exact Hwf. eauto.
  - intros html Hout.
    apply render_results_returned in Hout as [-> Hwf]. fold results in Hwf |- *.
    split; [now destruct results|].
    assert (card_elements (grid (card_of <$> shown results))
            = 6 `min` linked) as Hgrid.
    { unfold card_elements.
      rewrite (count_occurrences_grid card_opener 1);
        [| reflexivity | reflexivity |].
      - rewrite length_fmap, shown_length. fold linked. lia.
      - eapply Forall_impl; [apply shown_cards_count; assumption|].
        intros c Hc b. apply Hc. }
    destruct results as [|p rest] eqn:Hres.
    + subst linked. cbn. split; [lia | intros _; reflexivity].
    + rewrite Hgrid. lia.
Qed.

(** Scenario of C4: "red sneakers", eight items of which seven have a link,
    gives a fragment with six card elements. *)
Lemma visual_search_caps_cards_at_six_witness :
  length (filter has_link red_sneakers) = 7
  /\ exists html : string,
       fst (VisualSearchTool_execute (world_of shop) "red sneakers"
              initial_state) = Ok html
       /\ card_elements html = 6.
Proof.
  split; [vm_compute; reflexivity|].
  assert (forallb markup_free (shown red_sneakers) = true) as Hfree
    by (vm_compute; reflexivity).
  destruct (visual_search_caps_cards_at_six (world_of shop) "red sneakers"
              initial_state "test-key" (Some (Items red_sneakers))
              eq_refl eq_refl eq_refl Hfree)
    as [Hreturns Hcards].
  destruct (Hreturns eq_refl) as [html Hout].
  destruct (Hcards html Hout) as (_ & Hsix & _).
  exists html. split; [exact Hout | apply Hsix; vm_compute; lia].
Defined.

(** C4 as stated does not hold for every response.  The texts of an item
    are written into its card unescaped: six linked items, one of whose
    prices holds the markup of a card opener, give a fragment with seven
    card elements.  And an item whose link is a number makes the loop raise,
    so that no fragment is returned at all. *)
Lemma visual_search_counts_injected_cards :
  (length (filter has_link marked_up_sneakers) = 6
   /\ exists html : string,
        fst (VisualSearchTool_execute
               (world_of (shop_answering marked_up_sneakers)) "red sneakers"
               initial_state) = Ok html
        /\ card_elements html = 7)
  /\ (length (filter has_link sneakers_with_numeric_link) = 2
      /\ fst (VisualSearchTool_execute
                (world_of (shop_answering sneakers_with_numeric_link))
                "red sneakers" initial_state)
         = Raise "quote_from_bytes() expected bytes").
Proof.
  split; (split; [vm_compute; reflexivity|]).
  - eexists. split; [reflexivity | vm_compute; reflexivity].
  - reflexivity.
Qed.

(** C5 (as amended): whenever [VisualSearchTool.execute] returns (as it
    does on every well-formed search response) and the texts of the items
    shown hold no [<], an item without usable link (no [link] and no
    [product_link], or only falsy ones) has no card in the HTML fragment
    returned: the fragment is the grid of the cards of the first six
    linked items, the item is not one of them, and the card the item would
    be given does not occur anywhere in the returned text. *)
Theorem visual_search_skips_unlinked (w : World) (q : string) (st : state)
    (key : string) (response : option results_value)
    (fields : gmap string value) :
  obs w _ (trace st) (Getenv "SERPAPI_KEY") = Some key ->
  truthy key = true ->
  act w _ (trace st) (GoogleSearch key q) = Ok response ->
  forallb markup_free (shown (items_of response)) = true ->
  raw_link_of fields = None ->
  let results := items_of response in
  (well_formed_response response = true ->
   exists html : string, fst (VisualSearchTool_execute w q st) = Ok html)
  /\ forall html : string,
       fst (VisualSearchTool_execute w q st) = Ok html ->
       html = match results with
              | [] => "No products found."
              | _ => grid (card_of <$> shown results)
              end
       /\ Forall has_link (shown results)
       /\ (Object fields ∉ shown results)
       /\ contains (card_of (Object fields)) html = false.
Proof.
  intros Hkey Htruthy Hsearch Hfree Hnone results.
  rewrite (VisualSearchTool_execute_answered w q st key response)
    by assumption.
  cbn [fst]. split.
  { intros Hwf. rewrite render_results_well_formed by exact Hwf. eauto. }
  intros html Hout.
  apply render_results_returned in Hout as [-> Hwf]. fold results in Hwf |- *.
  split; [now destruct results|].
  split; [apply shown_has_link|]. split.
  - intros Hin. pose proof (shown_has_link results) as Hall.
    rewrite Forall_forall in Hall.
    now apply (has_link_unlinked fields Hnone), Hall.
  - pose proof (shown_cards_count results Hwf Hfree) as Hcards.
    match goal with |- ?lhs = false => destruct lhs eqn:Hin end;
      [|reflexivity].
    assert (contains empty_buy_button (card_of (Object fields)) = true)
      as Hbutton.
    { unfold card_of. rewrite Hnone. apply card_html_empty_button. }
    pose proof (contains_occurs _ _ (contains_trans _ _ _ Hbutton Hin))
      as Hpos.
    destruct results as [|p rest] eqn:Hres.
    + vm_compute in Hpos. lia.
    + rewrite (count_occurrences_grid empty_buy_button 0) in Hpos;
        [lia | reflexivity | reflexivity |].
      eapply Forall_impl; [exact Hcards|].
      intros c Hc b. apply Hc.
Qed.

(** Scenario of C5: the third of the "red sneakers" results has no link,
    and its card is nowhere in the fragment. *)
Lemma visual_search_skips_unlinked_witness :
  unlinked_product "Runner 3" "$42" ∈ red_sneakers
  /\ exists html : string,
       fst (VisualSearchTool_execute (world_of shop) "red sneakers"
              initial_state) = Ok html
       /\ contains (card_of (unlinked_product "Runner 3" "$42")) html = false.
Proof.
  split.
  { unfold red_sneakers. do 2 apply list_elem_of_further.
    apply list_elem_of_here. }
  assert (forallb markup_free (shown red_sneakers) = true) as Hfree
    by (vm_compute; reflexivity).
  assert (raw_link_of (<["title" := Str "Runner 3"]>
                         (<["price" := Str "$42"]> ∅)) = None) as Hnone
    by (vm_compute; reflexivity).
  destruct (visual_search_skips_unlinked (world_of shop) "red sneakers"
              initial_state "test-key" (Some (Items red_sneakers))
              (<["title" := Str "Runner 3"]> (<["price" := Str "$42"]> ∅))
              eq_refl eq_refl eq_refl Hfree Hnone)
    as [Hreturns Hcards].
  destruct (Hreturns eq_refl) as [html Hout].
  destruct (Hcards html Hout) as (_ & _ & _ & Hnot).
  exists html. split; [exact Hout | exact Hnot].
Defined.

(** C5 as stated does not hold for every response.  The texts of an item
    are written into its card unescaped: when the store name of a linked
    item holds the markup of a card for an item without link, that card
    is part of the fragment. *)
Lemma visual_search_shows_injected_card :
  link_of ghost = None
  /\ ghost ∈ haunted_sneakers
  /\ exists html : string,
       fst (VisualSearchTool_execute
              (world_of (shop_answering haunted_sneakers)) "red sneakers"
              initial_state) = Ok html
       /\ contains (card_of ghost) html = true.
Proof.
  split; [reflexivity|]. split; [apply list_elem_of_here|].
  eexists. split; [reflexivity | vm_compute; reflexivity].
Qed.

(** ** What a computation adds to the history *)

Lemma grows_refl (P : event -> Prop) (st : state) : grows P st st.
Proof. exists []. split; [now rewrite app_nil_r | constructor]. Qed.

Lemma grows_trans (P : event -> Prop) (st1 st2 st3 : state) :
  grows P st1 st2 -> grows P st2 st3 -> grows P st1 st3.
Proof.
  intros (e1 & H1 & F1) (e2 & H2 & F2). exists (e1 ++ e2). split.
  - now rewrite H2, H1, app_assoc.
  - now apply Forall_app.
Qed.

Lemma grows_log (P : event -> Prop) (e : event) (st : state) :
  P e -> grows P st (log e st).
Proof. intros H. exists [e]. split; [reflexivity | now repeat constructor]. Qed.

Lemma grows_impl (P Q : event -> Prop) (st st' : state) :
  (forall e, P e -> Q e) -> grows P st st' -> grows Q st st'.
Proof.
  intros H (evs & Htr & F). exists evs. split; [exact Htr|].
  eapply Forall_impl; eauto.
Qed.

Lemma grows_same_trace (P : event -> Prop) (st st' : state) :
  trace st' = trace st -> grows P st st'.
Proof. intros H. exists []. split; [now rewrite app_nil_r | constructor]. Qed.

Section Emits.

Context {A B : Type} (P : event -> Prop).

Lemma emits_ret (a : A) : emits P (ret a).
Proof. intros st. apply grows_refl. Qed.

Lemma emits_raise (e : exn) : emits P (@raise A e).
Proof. intros st. apply grows_refl. Qed.

Lemma emits_lift (r : res A) : emits P (lift r).
Proof. intros st. apply grows_refl. Qed.

Lemma emits_bind (m : M A) (k : A -> M B) :
  emits P m -> (forall a, emits P (k a)) -> emits P (bind m k).
Proof.
  intros Hm Hk st. unfold bind. specialize (Hm st).
  destruct (m st) as [[a|e] st']; [|exact Hm].
  eapply grows_trans; [exact Hm | apply Hk].
Qed.

Lemma emits_try_except (m : M A) (h : exn -> M A) :
  emits P m -> (forall e, emits P (h e)) -> emits P (try_except m h).
Proof.
  intros Hm Hh st. unfold try_except. specialize (Hm st).
  destruct (m st) as [[a|e] st']; [exact Hm|].
  eapply grows_trans; [exact Hm | apply Hh].
Qed.

Lemma emits_try_finally (m : M A) (f : M unit) :
  emits P m -> emits P f -> emits P (try_finally m f).
Proof.
  intros Hm Hf st. unfold try_finally. specialize (Hm st).
  destruct (m st) as [r st']. specialize (Hf st').
  destruct (f st') as [[u|e] st'']; eapply grows_trans; eauto.
Qed.

Lemma emits_attempt (m : M A) : emits P m -> emits P (attempt m).
Proof.
  intros Hm st. unfold attempt. specialize (Hm st). now destruct (m st).
Qed.

Lemma emits_impl (Q : event -> Prop) (m : M A) :
  (forall e, Q e -> P e) -> emits Q m -> emits P m.
Proof. intros H Hm st. eapply grows_impl; eauto. Qed.

Lemma keeps_ret (a : A) : keeps (ret a).
Proof. intros st. reflexivity. Qed.

Lemma keeps_raise (e : exn) : keeps (@raise A e).
Proof. intros st. reflexivity. Qed.

Lemma keeps_lift (r : res A) : keeps (lift r).
Proof. intros st. reflexivity. Qed.

Lemma keeps_bind (m : M A) (k : A -> M B) :
  keeps m -> (forall a, keeps (k a)) -> keeps (bind m k).
Proof.
  intros Hm Hk st. unfold bind. specialize (Hm st).
  destruct (m st) as [[a|e] st']; [|exact Hm].
  now rewrite Hk.
Qed.

Lemma keeps_try_except (m : M A) (h : exn -> M A) :
  keeps m -> (forall e, keeps (h e)) -> keeps (try_except m h).
Proof.
  intros Hm Hh st. unfold try_except. specialize (Hm st).
  destruct (m st) as [[a|e] st']; [exact Hm|].
  now rewrite Hh.
Qed.

Lemma keeps_try_finally (m : M A) (f : M unit) :
  keeps m -> keeps f -> keeps (try_finally m f).
Proof.
  intros Hm Hf st. unfold try_finally. specialize (Hm st).
  destruct (m st) as [r st']. specialize (Hf st').
  destruct (f st') as [[u|e] st'']; simpl in *; congruence.
Qed.

Lemma keeps_attempt (m : M A) : keeps m -> keeps (attempt m).
Proof.
  intros Hm st. unfold attempt. specialize (Hm st). now destruct (m st).
Qed.

End Emits.

Section EmitsWorld.

Context (w : World) (P : event -> Prop).

Lemma emits_perform {T} (c : call T) :
  (forall r, P (Ev c r)) -> emits P (perform w c).
Proof. intros H st. apply grows_log, H. Qed.

Lemma emits_observe {T} (q : query T) : emits P (observe w q).
Proof. intros st. apply grows_refl. Qed.

Lemma emits_sleep (secs : nat) : P (EvSleep secs) -> emits P (sleep secs).
Proof. intros H st. apply grows_log, H. Qed.

Lemma emits_get_shared : emits P get_shared.
Proof. intros st. apply grows_refl. Qed.

Lemma emits_put_shared (s : SharedState) : emits P (put_shared s).
Proof. intros st. now apply grows_same_trace. Qed.

Lemma keeps_perform {T} (c : call T) : keeps (perform w c).
Proof. intros st. reflexivity. Qed.

Lemma keeps_observe {T} (q : query T) : keeps (observe w q).
Proof. intros st. reflexivity. Qed.

Lemma keeps_sleep (secs : nat) : keeps (sleep secs).
Proof. intros st. reflexivity. Qed.

Lemma keeps_get_shared : keeps get_shared.
Proof. intros st. reflexivity. Qed.

End EmitsWorld.

(** Decompose a goal [emits P m] or [keeps m] along the structure of [m],
    branching on the scrutinee of every conditional. *)
Ltac walk :=
  repeat first
    [ apply emits_ret | apply emits_raise | apply emits_lift
    | apply emits_observe | apply emits_get_shared | apply emits_put_shared
    | apply emits_attempt
    | apply emits_bind; [|intros ?]
    | apply emits_try_except; [|intros ?]
    | apply emits_try_finally
    | apply keeps_ret | apply keeps_raise | apply keeps_lift
    | apply keeps_observe | apply keeps_get_shared | apply keeps_perform
    | apply keeps_sleep | apply keeps_attempt
    | apply keeps_bind; [|intros ?]
    | apply keeps_try_except; [|intros ?]
    | apply keeps_try_finally
    | match goal with
      | |- emits _ (if ?b then _ else _) => destruct b
      | |- emits _ (match ?x with _ => _ end) => destruct x
      | |- keeps (if ?b then _ else _) => destruct b
      | |- keeps (match ?x with _ => _ end) => destruct x
      end ].

(** The same, also closing the goals about single events. *)
Ltac solve_event :=
  first
    [ reflexivity
    | split; [reflexivity | cbn; intros ? ?; congruence]
    | exact I ].

Ltac walk_with :=
  walk;
  try (apply emits_perform; intros ?; solve_event);
  try (apply emits_sleep; solve_event).

(** ** Kinds of events *)

Lemma count_app (f : event -> bool) (tr evs : list event) :
  count f (tr ++ evs) = count f tr + count f evs.
Proof. unfold count. now rewrite List.filter_app, length_app. Qed.

Lemma count_none (f : event -> bool) (evs : list event) :
  Forall (fun e => f e = false) evs -> count f evs = 0.
Proof.
  unfold count. induction 1 as [|e evs He _ IH]; simpl; [reflexivity|].
  now rewrite He.
Qed.

Lemma grows_count (f : event -> bool) (st st' : state) :
  grows (fun e => f e = false) st st' -> count f (trace st') = count f (trace st).
Proof.
  intros (evs & -> & F). rewrite count_app, (count_none f evs F). lia.
Qed.

(** ** The redirect resolver, in general *)

Lemma resolve_url_headless_emits (w : World) (dirty_url : string) :
  emits (fun e => resolver_event e = true) (resolve_url_headless w dirty_url).
Proof.
  unfold resolve_url_headless, resolve_body, extract_from_href, click_offer_row.
  walk_with.
Qed.

Lemma resolve_url_headless_keeps (w : World) (dirty_url : string) :
  keeps (resolve_url_headless w dirty_url).
Proof.
  unfold resolve_url_headless, resolve_body, extract_from_href, click_offer_row.
  walk.
Qed.

(** ** The redirect resolver, once its browser is up *)

Lemma opened_trace (st : state) (p b pg : handle) :
  trace (opened st p b pg) = trace st ++ headless_prefix p b pg.
Proof. unfold opened, log, headless_prefix. cbn. now rewrite <- !app_assoc. Qed.

Lemma opened_shared (st : state) (p b pg : handle) :
  shared (opened st p b pg) = shared st.
Proof. reflexivity. Qed.

(** The scaffolding of [resolve_url_headless] around an arbitrary body. *)
Lemma headless_scaffold_run {A} (w : World) (body : handle -> M A)
    (st : state) (p b pg : handle) :
  opens_headless_page w (trace st) p b pg ->
  releases w p b ->
  (p0 <- perform w AsyncPlaywrightEnter;;
   try_finally
     (b0 <- perform w (ChromiumLaunch p0 true);;
      pg0 <- perform w (BrowserNewPage b0 USER_AGENT);;
      try_finally (body pg0) (perform w (BrowserClose b0)))
     (perform w (AsyncPlaywrightExit p0))) st
  = (fst (body pg (opened st p b pg)),
     log (Ev (AsyncPlaywrightExit p) (Ok tt))
       (log (Ev (BrowserClose b) (Ok tt)) (snd (body pg (opened st p b pg))))).
Proof.
  intros (Henter & Hlaunch & Hpage) (Hclose & Hexit).
  unfold bind, try_finally, perform, log. cbn.
  rewrite Henter. cbn. rewrite Hlaunch. cbn. rewrite Hpage. cbn.
  change {| shared := shared st;
            trace := ((trace st ++ [Ev AsyncPlaywrightEnter (Ok p)])
                      ++ [Ev (ChromiumLaunch p true) (Ok b)])
                     ++ [Ev (BrowserNewPage b USER_AGENT) (Ok pg)] |}
    with (opened st p b pg).
  destruct (body pg (opened st p b pg)) as [r st']. cbn.
  rewrite Hclose. cbn. now rewrite Hexit.
Qed.

Lemma resolve_url_headless_run (w : World) (dirty_url : string) (st : state)
    (p b pg : handle) :
  opens_headless_page w (trace st) p b pg ->
  releases w p b ->
  let guarded :=
    try_except (resolve_body w pg dirty_url) (fun _ => ret dirty_url)
      (opened st p b pg) in
  resolve_url_headless w dirty_url st
  = (fst guarded,
     log (Ev (AsyncPlaywrightExit p) (Ok tt))
       (log (Ev (BrowserClose b) (Ok tt)) (snd guarded))).
Proof.
  intros Hopen Hrel.
  apply (headless_scaffold_run w
           (fun pg0 => try_except (resolve_body w pg0 dirty_url)
                         (fun _ => ret dirty_url)) st p b pg Hopen Hrel).
Qed.

Lemma try_except_ret_ok {A} (m : M A) (a : A) (st : state) :
  exists r, fst (try_except m (fun _ => ret a) st) = Ok r
            /\ (forall e, fst (m st) = Raise e -> r = a).
Proof.
  unfold try_except, ret. destruct (m st) as [[r|e] st']; cbn.
  - exists r. split; [reflexivity | discriminate].
  - exists a. split; [reflexivity | reflexivity].
Qed.

Lemma guarded_body_emits (w : World) (pg : handle) (dirty_url : string) :
  emits (fun e => closes_browser e = false)
    (try_except (resolve_body w pg dirty_url) (fun _ => ret dirty_url)).
Proof. unfold resolve_body, extract_from_href, click_offer_row. walk_with. Qed.

Lemma guarded_body_keeps (w : World) (pg : handle) (dirty_url : string) :
  keeps (try_except (resolve_body w pg dirty_url) (fun _ => ret dirty_url)).
Proof. unfold resolve_body, extract_from_href, click_offer_row. walk. Qed.

Lemma resolve_body_goto_fails (w : World) (pg : handle) (dirty_url : string)
    (st : state) (e : exn) :
  act w _ (trace st) (PageGoto pg dirty_url 30000) = Raise e ->
  resolve_body w pg dirty_url st
  = (Raise e, log (Ev (PageGoto pg dirty_url 30000) (Raise e)) st).
Proof.
  intros H. unfold resolve_body, bind, perform. cbn. now rewrite H.
Qed.

(** C1 (as amended): once the resolver's headless browser is launched and its
    page opened, and provided closing them does not itself fail,
    [resolve_url_headless] returns a string and raises nothing; the browser
    is closed exactly once, after everything else and on every path; and
    when the navigation fails, or anything else in the body of the [try]
    raises, the result is the input URL unchanged. *)
Theorem resolver_falls_back_and_closes (w : World) (dirty_url : string)
    (st : state) (p b pg : handle) :
  opens_headless_page w (trace st) p b pg ->
  releases w p b ->
  exists (r : string) (evs : list event),
    resolve_url_headless w dirty_url st
    = (Ok r,
       {| shared := shared st;
          trace := trace st ++ headless_prefix p b pg ++ evs
                   ++ [ Ev (BrowserClose b) (Ok tt);
                        Ev (AsyncPlaywrightExit p) (Ok tt) ] |})
    /\ Forall (fun e => closes_browser e = false) evs
    /\ (forall e,
          act w _ (trace (opened st p b pg)) (PageGoto pg dirty_url 30000)
          = Raise e -> r = dirty_url)
    /\ (forall e,
          fst (resolve_body w pg dirty_url (opened st p b pg)) = Raise e ->
          r = dirty_url).
Proof.
  intros Hopen Hrel.
  rewrite (resolve_url_headless_run w dirty_url st p b pg Hopen Hrel).
  destruct (try_except_ret_ok (resolve_body w pg dirty_url) dirty_url
              (opened st p b pg)) as (r & Hr & Hfall).
  destruct (guarded_body_emits w pg dirty_url (opened st p b pg))
    as (evs & Htr & Hevs).
  pose proof (guarded_body_keeps w pg dirty_url (opened st p b pg)) as Hsh.
  exists r, evs. repeat split.
  - rewrite Hr. f_equal. unfold log. cbn. rewrite Hsh, Htr, opened_trace.
    f_equal. now rewrite <- !app_assoc.
  - exact Hevs.
  - intros e He. apply (Hfall e).
    now rewrite (resolve_body_goto_fails w pg dirty_url _ e He).
  - exact Hfall.
Qed.

Lemma resolver_falls_back_and_closes_witness :
  fst (resolve_url_headless (world_of shop_behind_slow_search) search_link
         initial_state) = Ok search_link
  /\ count closes_browser
       (trace (snd (resolve_url_headless (world_of shop_behind_slow_search)
                      search_link initial_state))) = 1.
Proof.
  destruct (resolver_falls_back_and_closes (world_of shop_behind_slow_search)
              search_link initial_state 1 2 3)
    as (r & evs & Hrun & Hevs & Hgoto & _).
  - repeat split; reflexivity.
  - split; intros tr; reflexivity.
  - rewrite Hrun. cbn [fst snd trace]. split.
    + f_equal. apply (Hgoto "Timeout 30000ms exceeded."). reflexivity.
    + rewrite !count_app, (count_none closes_browser evs Hevs). reflexivity.
Defined.

(** C1 as stated does not hold: when the headless browser cannot be
    launched the exception leaves [resolve_url_headless], and when its page
    cannot be opened the exception leaves it too and the browser that was
    launched is never closed. *)
Lemma resolver_can_raise :
  fst (resolve_url_headless (world_of shop_without_chromium) search_link
         initial_state)
  = Raise "BrowserType.launch: Executable doesn't exist"
  /\ resolve_url_headless (world_of shop_with_crashing_pages) search_link
       initial_state
     = (Raise "Browser.new_page: Target closed",
        {| shared := SHARED_BROWSER_STATE;
           trace := [ Ev AsyncPlaywrightEnter (Ok 1);
                      Ev (ChromiumLaunch 1 true) (Ok 2);
                      Ev (BrowserNewPage 2 USER_AGENT)
                        (Raise "Browser.new_page: Target closed");
                      Ev (AsyncPlaywrightExit 1) (Ok tt) ] |}).
Proof. split; reflexivity. Qed.

(** C6 (as amended): the resolver looks at the URL of the page it landed
    on, not at its input.  With its browser up, if the navigation succeeds
    and the landing URL does not contain [google.com], it returns that
    landing URL, which is the input URL when nothing redirected, and it
    attempts no extraction: the only calls are the navigation and the
    release of the browser. *)
Theorem resolver_returns_landing_url (w : World) (dirty_url : string)
    (st : state) (p b pg : handle) :
  opens_headless_page w (trace st) p b pg ->
  releases w p b ->
  act w _ (trace (opened st p b pg)) (PageGoto pg dirty_url 30000) = Ok tt ->
  let landed :=
    log (Ev (PageGoto pg dirty_url 30000) (Ok tt)) (opened st p b pg) in
  let current := obs w _ (trace landed) (PageUrl pg) in
  contains "google.com" current = false ->
  resolve_url_headless w dirty_url st
  = (Ok current,
     {| shared := shared st;
        trace := trace st ++ headless_prefix p b pg
                 ++ [ Ev (PageGoto pg dirty_url 30000) (Ok tt);
                      Ev (BrowserClose b) (Ok tt);
                      Ev (AsyncPlaywrightExit p) (Ok tt) ] |})
  /\ (current = dirty_url ->
      fst (resolve_url_headless w dirty_url st) = Ok dirty_url).
Proof.
  intros Hopen Hrel Hgoto landed current Hplain.
  assert (try_except (resolve_body w pg dirty_url) (fun _ => ret dirty_url)
            (opened st p b pg) = (Ok current, landed)) as Hbody.
  { unfold try_except, resolve_body, bind, perform, observe.
    remember (opened st p b pg) as st3 eqn:Hst3. cbn.
    rewrite Hgoto. cbn. subst st3.
    change (trace (opened st p b pg)
              ++ [Ev (PageGoto pg dirty_url 30000) (Ok tt)])
      with (trace landed).
    fold current. rewrite Hplain. reflexivity. }
  rewrite (resolve_url_headless_run w dirty_url st p b pg Hopen Hrel).
  rewrite Hbody. cbn [fst snd]. split.
  - f_equal. unfold landed, log. cbn [shared trace]. f_equal.
    rewrite opened_trace. now rewrite <- !app_assoc.
  - now intros ->.
Qed.

Lemma resolver_returns_landing_url_witness :
  fst (resolve_url_headless (world_of shop) "https://shop.example/item/42"
         initial_state) = Ok "https://shop.example/item/42".
Proof.
  destruct (resolver_returns_landing_url (world_of shop)
              "https://shop.example/item/42" initial_state 1 2 3)
    as [_ Hsame].
  - repeat split; reflexivity.
  - split; intros tr; reflexivity.
  - reflexivity.
  - reflexivity.
  - apply Hsame. reflexivity.
Defined.

(** C6 as stated does not hold: an input URL without [google.com] that
    redirects to a search-engine page is not returned unchanged, and the
    anchor extraction runs on it. *)
Lemma resolver_follows_redirect_to_search_page :
  contains "google.com" short_link = false
  /\ resolve_url_headless (world_of shortener) short_link initial_state
     = (Ok "https://shop.example/item/42",
        {| shared := SHARED_BROWSER_STATE;
           trace := [ Ev AsyncPlaywrightEnter (Ok 1);
                      Ev (ChromiumLaunch 1 true) (Ok 2);
                      Ev (BrowserNewPage 2 USER_AGENT) (Ok 3);
                      Ev (PageGoto 3 short_link 30000) (Ok tt);
                      Ev (LocatorCount 3 "a[href*='url?q=']") (Ok 1);
                      Ev (LocatorGetAttribute 3 "a[href*='url?q=']" "href")
                        (Ok (Some "/url?q=https://shop.example/item/42&sa=U"));
                      Ev (BrowserClose 2) (Ok tt);
                      Ev (AsyncPlaywrightExit 1) (Ok tt) ] |}).
Proof. split; reflexivity. Qed.

(** ** The add-to-cart clicker *)

Lemma click_first_visible_cons (w : World) (pg : handle) (selector : string)
    (rest : list string) :
  click_first_visible w pg (selector :: rest)
  = (visible <- perform w (LocatorIsVisible pg selector);;
     if visible then
       perform w (LocatorClick pg selector true);;;
       ret true
     else click_first_visible w pg rest).
Proof. reflexivity. Qed.

(** The loop probes the selectors in list order, clicks the first one that
    is visible, with [force=True], and looks no further; a failing click
    ends the loop with its exception. *)
Lemma click_first_visible_at (w : World) (pg : handle) (sels : list string)
    (k : nat) (sel : string) (st : state) :
  sels !! k = Some sel ->
  (forall i s, i < k -> sels !! i = Some s ->
     act w _ (trace st ++ probes pg (take i sels)) (LocatorIsVisible pg s)
     = Ok false) ->
  act w _ (trace st ++ probes pg (take k sels)) (LocatorIsVisible pg sel)
  = Ok true ->
  let click :=
    act w _ (trace st ++ probes pg (take k sels)
               ++ [Ev (LocatorIsVisible pg sel) (Ok true)])
      (LocatorClick pg sel true) in
  click_first_visible w pg sels st
  = (match click with Ok _ => Ok true | Raise e => Raise e end,
     {| shared := shared st;
        trace := trace st ++ probes pg (take k sels)
                 ++ [ Ev (LocatorIsVisible pg sel) (Ok true);
                      Ev (LocatorClick pg sel true) click ] |}).
Proof.
  revert k st. induction sels as [|s0 rest IH]; intros k st Hk Hmiss Hhit.
  - discriminate.
  - rewrite click_first_visible_cons. destruct k as [|k].
    + injection Hk as ->. cbn in Hhit. rewrite app_nil_r in Hhit.
      cbv zeta. cbn [take probes fmap list_fmap app].
      unfold bind, perform, ret, log. cbn. rewrite Hhit. cbn.
      destruct (act w _ _ (LocatorClick pg sel true)); now rewrite <- !app_assoc.
    + cbn in Hk.
      pose proof (Hmiss 0 s0 (Nat.lt_0_succ k) eq_refl) as H0.
      cbn in H0. rewrite app_nil_r in H0.
      unfold bind at 1. unfold perform at 1. cbn. rewrite H0.
      rewrite (IH k (log (Ev (LocatorIsVisible pg s0) (Ok false)) st) Hk).
      * unfold log. cbn. now rewrite <- !app_assoc.
      * intros i s Hi Hs. unfold log. cbn. rewrite <- app_assoc.
        apply (Hmiss (S i) s); [lia | exact Hs].
      * unfold log. cbn. rewrite <- app_assoc. exact Hhit.
Qed.

Lemma selectors_index_of_add_to_bag (k : nat) :
  selectors !! k = Some "button:has-text('Add to Bag')" -> k = 5.
Proof.
  do 8 (destruct k as [|k]; [cbn; intros H; try reflexivity; discriminate|]).
  discriminate.
Qed.

(** C7: the selectors are tried in the fixed order of the list; the first
    one found visible is force-clicked and no later selector is looked at;
    when that click returns the tool pauses and reports success (a click
    that fails is reported as a click error).  The text-based "Add to Bag"
    pattern is the sixth of the list, so a page showing only that control
    is matched after exactly five failed checks. *)
Theorem add_to_cart_clicks_first_visible (w : World) (st : state)
    (pg : handle) (k : nat) (sel : string) :
  page (shared st) = Some pg ->
  selectors !! k = Some sel ->
  (forall i s, i < k -> selectors !! i = Some s ->
     act w _ (trace st ++ probes pg (take i selectors)) (LocatorIsVisible pg s)
     = Ok false) ->
  act w _ (trace st ++ probes pg (take k selectors)) (LocatorIsVisible pg sel)
  = Ok true ->
  let click :=
    act w _ (trace st ++ probes pg (take k selectors)
               ++ [Ev (LocatorIsVisible pg sel) (Ok true)])
      (LocatorClick pg sel true) in
  AddToCartTool_execute w st
  = (match click with
     | Ok _ => Ok "Success: Item added to cart."
     | Raise e => Ok ("Click Error: " +:+ e)
     end,
     {| shared := shared st;
        trace := trace st ++ probes pg (take k selectors)
                 ++ [ Ev (LocatorIsVisible pg sel) (Ok true);
                      Ev (LocatorClick pg sel true) click ]
                 ++ (if is_ok click then [EvSleep 5] else []) |})
  /\ (sel = "button:has-text('Add to Bag')" -> k = 5).
Proof.
  intros Hpage Hk Hmiss Hhit click. split.
  - unfold AddToCartTool_execute, bind at 1, get_shared. rewrite Hpage.
    unfold try_except, bind.
    rewrite (click_first_visible_at w pg selectors k sel st Hk Hmiss Hhit).
    fold click. destruct click as [[]|e].
    + unfold sleep, ret, log. cbn [negb shared trace is_ok]. f_equal. f_equal.
      now rewrite <- !app_assoc.
    + unfold ret. cbn [is_ok]. now rewrite app_nil_r.
  - intros ->. now apply selectors_index_of_add_to_bag.
Qed.

(** Scenario of C7: on the shop's product page only "Add to Bag" shows. *)
Lemma add_to_cart_clicks_first_visible_witness :
  let st := snd (NavigateTool_execute (world_of shop)
                   "https://shop.example/item/42" initial_state) in
  AddToCartTool_execute (world_of shop) st
  = (Ok "Success: Item added to cart.",
     {| shared := shared st;
        trace := trace st ++ probes 4 (take 5 selectors)
                 ++ [ Ev (LocatorIsVisible 4 "button:has-text('Add to Bag')")
                        (Ok true);
                      Ev (LocatorClick 4 "button:has-text('Add to Bag')" true)
                        (Ok tt);
                      EvSleep 5 ] |}).
Proof.
  intros st.
  refine (proj1 (add_to_cart_clicks_first_visible (world_of shop) st 4 5
                   "button:has-text('Add to Bag')" eq_refl eq_refl _
                   eq_refl)).
  intros i s Hi Hs.
  do 5 (destruct i as [|i]; [injection Hs as <-; reflexivity|]). lia.
Defined.

(** C8: with no page in the shared state the tool answers "no browser
    open" at once: nothing is clicked, nothing is even asked of the browser,
    and the state is exactly what it was. *)
Theorem add_to_cart_needs_a_page (w : World) (st : state) :
  page (shared st) = None ->
  AddToCartTool_execute w st = (Ok "Error: No browser open.", st).
Proof.
  intros Hpage. unfold AddToCartTool_execute, bind, get_shared.
  now rewrite Hpage.
Qed.

Lemma add_to_cart_needs_a_page_witness :
  AddToCartTool_execute (world_of shop) initial_state
  = (Ok "Error: No browser open.", initial_state).
Proof. apply add_to_cart_needs_a_page. reflexivity. Defined.

(** ** The navigator, step by step *)

Lemma NavigateTool_execute_steps (w : World) (url : string) :
  NavigateTool_execute w url
  = (clean_url <- resolution_step w url;;
     session_step w;;;
     goto_step w clean_url).
Proof. reflexivity. Qed.

Lemma resolver_event_quiet (pg : option handle) (e : event) :
  resolver_event e = true -> quiet pg e.
Proof.
  destruct e as [T c r|secs]; [|discriminate].
  destruct c; cbn; try discriminate; intros H; split;
    try reflexivity; try discriminate.
  - now destruct headless.
  - apply N.eqb_eq in H as ->. discriminate.
  - destruct force; [discriminate | discriminate].
Qed.

Lemma quiet_no_session (pg : option handle) (e : event) :
  quiet pg e -> session_event e = false.
Proof. now intros [H _]. Qed.

Lemma session_event_visible_launch (e : event) :
  session_event e = false -> visible_launch e = false.
Proof. destruct e as [T c r|secs]; [|reflexivity]. now destruct c. Qed.

Lemma session_event_visible_page_opened (e : event) :
  session_event e = false -> visible_page_opened e = false.
Proof. destruct e as [T c r|secs]; [|reflexivity]. now destruct c. Qed.

(** *** The resolution step *)

Lemma resolution_step_keeps (w : World) (url : string) :
  keeps (resolution_step w url).
Proof.
  unfold resolution_step.
  destruct (contains _ _); [apply resolve_url_headless_keeps | apply keeps_ret].
Qed.

Lemma resolution_step_emits (w : World) (url : string) :
  emits (fun e => resolver_event e = true) (resolution_step w url).
Proof.
  unfold resolution_step.
  destruct (contains _ _); [apply resolve_url_headless_emits | apply emits_ret].
Qed.

(** *** The goto step *)

Lemma goto_step_keeps (w : World) (clean_url : string) :
  keeps (goto_step w clean_url).
Proof. unfold goto_step. walk. Qed.

Lemma goto_step_no_page (w : World) (clean_url : string) (st : state) :
  page (shared st) = None ->
  goto_step w clean_url st = (Ok no_page_error, st).
Proof.
  intros Hpage. unfold goto_step, bind, get_shared, try_except, raise, ret.
  now rewrite Hpage.
Qed.

Lemma goto_step_quiet (w : World) (clean_url : string) (st : state) :
  grows (quiet (page (shared st))) st (snd (goto_step w clean_url st)).
Proof.
  unfold goto_step, bind at 1, get_shared.
  destruct (page (shared st)) as [pg|].
  - match goal with |- grows _ _ (snd (?m st)) =>
      assert (emits (quiet (Some pg)) m) as H by walk_with; apply H end.
  - apply grows_refl.
Qed.

Lemma goto_step_direct (w : World) (clean_url : string) :
  emits (direct clean_url) (goto_step w clean_url).
Proof. unfold goto_step. walk_with. Qed.

(** *** The session step *)

Lemma session_step_present (w : World) (st : state) :
  playwright (shared st) <> None -> session_step w st = (Ok tt, st).
Proof.
  intros H. unfold session_step, bind, get_shared.
  now destruct (playwright (shared st)).
Qed.

Lemma session_step_direct (w : World) (url : string) :
  emits (direct url) (session_step w).
Proof. unfold session_step, launch_visible_browser. walk_with. Qed.

(** A visible session is created in four calls; the handles are stored as
    they come, so a failure part-way leaves the driver handle behind. *)
Lemma launch_visible_browser_run (w : World) (st : state) :
  match launch_visible_browser w st with
  | (Ok _, st') =>
      exists p b c pg,
        shared st' = {| playwright := Some p; browser := Some b;
                        page := Some pg |}
        /\ trace st' = trace st
                       ++ [ Ev AsyncPlaywrightStart (Ok p);
                            Ev (ChromiumLaunch p false) (Ok b);
                            Ev (BrowserNewContext b 1280 720) (Ok c);
                            Ev (ContextNewPage c) (Ok pg) ]
  | (Raise e, st') =>
      (shared st' = shared st
       /\ trace st' = trace st ++ [Ev AsyncPlaywrightStart (Raise e)])
      \/ (playwright (shared st') <> None
          /\ exists evs, trace st' = trace st ++ evs
                         /\ count visible_launch evs <= 1
                         /\ count visible_page_opened evs <= 1)
  end.
Proof.
  unfold launch_visible_browser, bind, perform, get_shared, put_shared, log.
  cbn.
  destruct (act w _ (trace st) AsyncPlaywrightStart) as [p|e] eqn:Hp; cbn;
    [|left; split; reflexivity].
  destruct (act w _ _ (ChromiumLaunch p false)) as [b|e] eqn:Hb; cbn.
  2:{ right. split; [discriminate|]. eexists. split;
        [rewrite <- !app_assoc; reflexivity | cbn; lia]. }
  destruct (act w _ _ (BrowserNewContext b 1280 720)) as [c|e] eqn:Hc; cbn.
  2:{ right. split; [discriminate|]. eexists. split;
        [rewrite <- !app_assoc; reflexivity | cbn; lia]. }
  destruct (act w _ _ (ContextNewPage c)) as [pg|e] eqn:Hpg; cbn.
  2:{ right. split; [discriminate|]. eexists. split;
        [rewrite <- !app_assoc; reflexivity | cbn; lia]. }
  exists p, b, c, pg. split; [reflexivity|]. now rewrite <- !app_assoc.
Qed.

(** ** Tools running on an existing session *)

Lemma click_first_visible_keeps (w : World) (pg : handle) (sels : list string) :
  keeps (click_first_visible w pg sels).
Proof.
  induction sels as [|s rest IH]; [apply keeps_ret|].
  rewrite click_first_visible_cons. walk. exact IH.
Qed.

Lemma click_first_visible_quiet (w : World) (pg : handle) (sels : list string) :
  emits (quiet (Some pg)) (click_first_visible w pg sels).
Proof.
  induction sels as [|s rest IH]; [apply emits_ret|].
  rewrite click_first_visible_cons. walk_with. exact IH.
Qed.

Lemma AddToCartTool_execute_keeps (w : World) : keeps (AddToCartTool_execute w).
Proof.
  unfold AddToCartTool_execute. walk.
  all: try apply click_first_visible_keeps.
Qed.

Lemma AddToCartTool_execute_quiet (w : World) (st : state) :
  grows (quiet (page (shared st))) st (snd (AddToCartTool_execute w st)).
Proof.
  unfold AddToCartTool_execute, bind at 1, get_shared.
  destruct (page (shared st)) as [pg|]; [|apply grows_refl].
  match goal with |- grows _ _ (snd (?m st)) =>
    assert (emits (quiet (Some pg)) m) as H; [|apply H] end.
  walk_with.
  all: try apply click_first_visible_quiet.
Qed.

Lemma VisualSearchTool_execute_keeps (w : World) (q : string) :
  keeps (VisualSearchTool_execute w q).
Proof. unfold VisualSearchTool_execute. walk. Qed.

Lemma VisualSearchTool_execute_quiet (w : World) (q : string)
    (pg : option handle) :
  emits (quiet pg) (VisualSearchTool_execute w q).
Proof. unfold VisualSearchTool_execute. walk_with. Qed.

(** With a driver handle in the shared state, the navigator skips the
    creation of the session altogether. *)
Lemma NavigateTool_execute_with_session (w : World) (url : string)
    (st : state) :
  playwright (shared st) <> None ->
  let resolved := resolution_step w url st in
  NavigateTool_execute w url st
  = match fst resolved with
    | Ok clean_url => goto_step w clean_url (snd resolved)
    | Raise e => (Raise e, snd resolved)
    end.
Proof.
  intros Hpw resolved. rewrite NavigateTool_execute_steps.
  unfold bind at 1. fold resolved.
  pose proof (resolution_step_keeps w url st) as Hsh. fold resolved in Hsh.
  destruct resolved as [[clean|e] st1]; [|reflexivity]. cbn [fst snd] in *.
  unfold bind. rewrite session_step_present by congruence. reflexivity.
Qed.

Lemma NavigateTool_execute_keeps_session (w : World) (url : string)
    (st : state) :
  playwright (shared st) <> None ->
  shared (snd (NavigateTool_execute w url st)) = shared st
  /\ grows (quiet (page (shared st))) st (snd (NavigateTool_execute w url st)).
Proof.
  intros Hpw. rewrite NavigateTool_execute_with_session by assumption.
  pose proof (resolution_step_keeps w url st) as Hsh.
  pose proof (resolution_step_emits w url st) as Hev.
  apply (grows_impl _ (quiet (page (shared st)))) in Hev;
    [|intros e; apply resolver_event_quiet].
  destruct (resolution_step w url st) as [[clean|e] st1]; cbn [fst snd] in *.
  - split.
    + now rewrite goto_step_keeps.
    + eapply grows_trans; [exact Hev|]. rewrite <- Hsh. apply goto_step_quiet.
  - now split.
Qed.

Lemma run_tool_keeps_session (w : World) (t : tool_call) (st : state) :
  playwright (shared st) <> None ->
  shared (snd (run_tool w t st)) = shared st
  /\ grows (quiet (page (shared st))) st (snd (run_tool w t st)).
Proof.
  intros Hpw. destruct t as [q|url|]; cbn [run_tool].
  - split; [apply VisualSearchTool_execute_keeps
           | apply VisualSearchTool_execute_quiet].
  - now apply NavigateTool_execute_keeps_session.
  - split; [apply AddToCartTool_execute_keeps
           | apply AddToCartTool_execute_quiet].
Qed.

(** Once the driver handle is stored, no sequence of tool calls changes the
    shared state, creates a session or touches another visible page. *)
Lemma run_tools_keep_session (w : World) (ts : list tool_call) (st : state) :
  playwright (shared st) <> None ->
  shared (run_tools w ts st) = shared st
  /\ grows (quiet (page (shared st))) st (run_tools w ts st).
Proof.
  revert st. induction ts as [|t rest IH]; intros st Hpw; cbn [run_tools].
  - split; [reflexivity | apply grows_refl].
  - destruct (run_tool_keeps_session w t st Hpw) as [Hsh Hev].
    destruct (IH (snd (run_tool w t st))) as [Hsh' Hev'];
      [now rewrite Hsh|].
    rewrite Hsh in Hsh', Hev'. split; [exact Hsh'|].
    eapply grows_trans; eauto.
Qed.

(** ** At most one visible session per process *)

Lemma quiet_counts (pg : option handle) (st st' : state) :
  grows (quiet pg) st st' ->
  count visible_launch (trace st') = count visible_launch (trace st)
  /\ count visible_page_opened (trace st')
     = count visible_page_opened (trace st).
Proof.
  intros H. split; apply grows_count; eapply grows_impl; try exact H;
    intros e [He _].
  - now apply session_event_visible_launch.
  - now apply session_event_visible_page_opened.
Qed.

Lemma one_session_quiet (pg : option handle) (st st' : state) :
  shared st' = shared st -> grows (quiet pg) st st' ->
  one_session st -> one_session st'.
Proof.
  intros Hsh Hev (H1 & H2 & H3). unfold one_session.
  destruct (quiet_counts pg st st' Hev) as [-> ->]. rewrite Hsh.
  repeat split; try assumption; now apply H3.
Qed.

Lemma NavigateTool_execute_one_session (w : World) (url : string)
    (st : state) :
  one_session st -> one_session (snd (NavigateTool_execute w url st)).
Proof.
  intros Hinv. destruct (playwright (shared st)) as [p|] eqn:Hpw.
  - destruct (NavigateTool_execute_keeps_session w url st) as [Hsh Hev];
      [congruence|].
    eapply one_session_quiet; eauto.
  - destruct Hinv as (_ & _ & Hzero). destruct (Hzero Hpw) as [Hl Hp].
    rewrite NavigateTool_execute_steps. unfold bind at 1.
    pose proof (resolution_step_keeps w url st) as Hsh.
    pose proof (resolution_step_emits w url st) as Hev.
    apply (grows_impl _ (quiet None)) in Hev;
      [|intros e; apply resolver_event_quiet].
    apply quiet_counts in Hev as [Hl1 Hp1].
    destruct (resolution_step w url st) as [[clean|e] st1]; cbn [fst snd] in *.
    2:{ unfold one_session. rewrite Hsh, Hl1, Hp1, Hl, Hp. repeat split; lia. }
    unfold bind at 1. unfold session_step, bind at 1, get_shared.
    rewrite Hsh, Hpw.
    pose proof (launch_visible_browser_run w st1) as Hrun.
    destruct (launch_visible_browser w st1) as [[[]|e] st2].
    + destruct Hrun as (p & b & c & pg & Hsh2 & Htr2).
      eapply (one_session_quiet (page (shared st2)));
        [apply goto_step_keeps | apply goto_step_quiet |].
      unfold one_session. rewrite Htr2, !count_app, Hl1, Hp1, Hl, Hp, Hsh2.
      cbn. repeat split; try lia; discriminate.
    + cbn. destruct Hrun as [[Hsh2 Htr2] | (Hpw2 & evs & Htr2 & Hl2 & Hp2)].
      * unfold one_session. rewrite Htr2, !count_app, Hl1, Hp1, Hl, Hp.
        cbn. repeat split; lia.
      * unfold one_session. rewrite Htr2, !count_app, Hl1, Hp1, Hl, Hp.
        repeat split; try lia; contradiction.
Qed.

Lemma run_tool_one_session (w : World) (t : tool_call) (st : state) :
  one_session st -> one_session (snd (run_tool w t st)).
Proof.
  intros Hinv. destruct t as [q|url|]; cbn [run_tool].
  - apply (one_session_quiet None st);
      [ apply VisualSearchTool_execute_keeps
      | apply VisualSearchTool_execute_quiet
      | exact Hinv ].
  - now apply NavigateTool_execute_one_session.
  - apply (one_session_quiet (page (shared st)) st);
      [ apply AddToCartTool_execute_keeps
      | apply AddToCartTool_execute_quiet
      | exact Hinv ].
Qed.

Lemma run_tools_one_session (w : World) (ts : list tool_call) (st : state) :
  one_session st -> one_session (run_tools w ts st).
Proof.
  revert st. induction ts as [|t rest IH]; intros st Hinv; cbn [run_tools].
  - exact Hinv.
  - apply IH. now apply run_tool_one_session.
Qed.

Lemma initial_state_one_session : one_session initial_state.
Proof. unfold one_session. cbn. repeat split; lia. Qed.

(** A first navigation that returns has created the whole session, once. *)
Lemma NavigateTool_execute_creates_session (w : World) (url : string)
    (st0 : state) (s1 : string) (st1 : state) :
  playwright (shared st0) = None ->
  NavigateTool_execute w url st0 = (Ok s1, st1) ->
  (exists p b pg,
     shared st1 = {| playwright := Some p; browser := Some b;
                     page := Some pg |})
  /\ count visible_launch (trace st1) = count visible_launch (trace st0) + 1
  /\ count visible_page_opened (trace st1)
     = count visible_page_opened (trace st0) + 1.
Proof.
  intros Hpw Hrun. rewrite NavigateTool_execute_steps in Hrun.
  unfold bind at 1 in Hrun.
  pose proof (resolution_step_keeps w url st0) as Hsh.
  pose proof (resolution_step_emits w url st0) as Hev.
  apply (grows_impl _ (quiet None)) in Hev;
    [|intros e; apply resolver_event_quiet].
  apply quiet_counts in Hev as [Hl1 Hp1].
  destruct (resolution_step w url st0) as [[clean|e] st']; cbn [fst snd] in *;
    [|discriminate].
  unfold bind at 1 in Hrun. unfold session_step, bind at 1, get_shared in Hrun.
  rewrite Hsh, Hpw in Hrun.
  pose proof (launch_visible_browser_run w st') as Hlaunch.
  destruct (launch_visible_browser w st') as [[[]|e] st2]; [|discriminate].
  destruct Hlaunch as (p & b & c & pg & Hsh2 & Htr2).
  pose proof (goto_step_keeps w clean st2) as Hsh3.
  pose proof (goto_step_quiet w clean st2) as Hev3.
  apply quiet_counts in Hev3 as [Hl3 Hp3].
  rewrite Hrun in Hsh3, Hl3, Hp3. cbn [fst snd] in *.
  split; [exists p, b, pg; congruence|].
  rewrite Hl3, Hp3, Htr2, !count_app, Hl1, Hp1. cbn. lia.
Qed.

(** C3: navigating twice creates the visible session once.  From a state
    without a session, if the first call returns, it has stored all three
    handles and launched exactly one visible browser with one page; the
    second call launches nothing, leaves the handles as they are and only
    drives the stored page; the same holds of any later sequence of tool
    calls; and over the whole life of the process at most one visible
    browser is launched and at most one page opened in it. *)
Theorem navigate_twice_one_session (w : World) (url1 url2 : string)
    (st0 : state) (s1 : string) (st1 : state) :
  playwright (shared st0) = None ->
  NavigateTool_execute w url1 st0 = (Ok s1, st1) ->
  let st2 := snd (NavigateTool_execute w url2 st1) in
  (exists p b pg,
     shared st1 = {| playwright := Some p; browser := Some b;
                     page := Some pg |}
     /\ grows (quiet (Some pg)) st1 st2
     /\ forall ts, grows (quiet (Some pg)) st1 (run_tools w ts st1))
  /\ shared st2 = shared st1
  /\ count visible_launch (trace st1) = count visible_launch (trace st0) + 1
  /\ count visible_page_opened (trace st1)
     = count visible_page_opened (trace st0) + 1
  /\ count visible_launch (trace st2) = count visible_launch (trace st1)
  /\ count visible_page_opened (trace st2)
     = count visible_page_opened (trace st1)
  /\ (forall ts, shared (run_tools w ts st1) = shared st1)
  /\ (forall ts,
        count visible_launch (trace (run_tools w ts initial_state)) <= 1
        /\ count visible_page_opened (trace (run_tools w ts initial_state))
           <= 1).
Proof.
  intros Hpw Hrun st2.
  destruct (NavigateTool_execute_creates_session w url1 st0 s1 st1 Hpw Hrun)
    as ((p & b & pg & Hsh1) & Hl1 & Hp1).
  assert (playwright (shared st1) <> None) as Hpw1 by (rewrite Hsh1; discriminate).
  destruct (NavigateTool_execute_keeps_session w url2 st1 Hpw1) as [Hsh2 Hev2].
  fold st2 in Hsh2, Hev2.
  assert (page (shared st1) = Some pg) as Hpg by now rewrite Hsh1.
  rewrite Hpg in Hev2.
  destruct (quiet_counts _ _ _ Hev2) as [Hl2 Hp2].
  repeat split; try assumption.
  - exists p, b, pg. repeat split; try assumption.
    intros ts. rewrite <- Hpg. now apply run_tools_keep_session.
  - intros ts. now apply run_tools_keep_session.
  - apply (run_tools_one_session w ts _ initial_state_one_session).
  - apply (run_tools_one_session w ts _ initial_state_one_session).
Qed.

Lemma navigate_twice_one_session_witness :
  let run1 := NavigateTool_execute (world_of shop)
                "https://shop.example/item/42" initial_state in
  let run2 := NavigateTool_execute (world_of shop)
                "https://shop.example/item/43" (snd run1) in
  shared (snd run2) = shared (snd run1)
  /\ count visible_launch (trace (snd run2)) = 1.
Proof.
  intros run1 run2.
  destruct (navigate_twice_one_session (world_of shop)
              "https://shop.example/item/42" "https://shop.example/item/43"
              initial_state
              "✅ Browser Opened. Navigated to: https://shop.example/item/42"
              (snd run1) eq_refl eq_refl)
    as (_ & Hsh & Hl1 & _ & Hl2 & _).
  split; [exact Hsh|]. unfold run2. rewrite Hl2, Hl1. reflexivity.
Defined.

(** C9 (as amended): once the driver handle is stored, no later
    [NavigateTool.execute] launches a browser or changes a stored handle,
    whether or not the page handle was ever set, and no sequence of tool
    calls repairs the session.  If the page handle is still [None], the
    call ends in the "Navigation Error" string for the missing page as soon
    as it gets past redirect resolution, in particular for every URL
    without [google.com]; an exception raised by the resolution itself
    propagates instead. *)
Theorem half_built_session_is_never_repaired (w : World) (url : string)
    (st : state) :
  playwright (shared st) <> None ->
  let out := NavigateTool_execute w url st in
  shared (snd out) = shared st
  /\ grows (fun e => session_event e = false) st (snd out)
  /\ (page (shared st) = None ->
      fst out = match fst (resolution_step w url st) with
                | Ok _ => Ok no_page_error
                | Raise e => Raise e
                end)
  /\ (page (shared st) = None ->
      contains "google.com" (unquote w url) = false ->
      out = (Ok no_page_error, st))
  /\ (forall ts,
        shared (run_tools w ts st) = shared st
        /\ grows (fun e => session_event e = false) st (run_tools w ts st)).
Proof.
  intros Hpw out.
  destruct (NavigateTool_execute_keeps_session w url st Hpw) as [Hsh Hev].
  fold out in Hsh, Hev. repeat split.
  - exact Hsh.
  - eapply grows_impl; [|exact Hev]. intros e. apply quiet_no_session.
  - intros Hpage. unfold out.
    rewrite NavigateTool_execute_with_session by assumption.
    pose proof (resolution_step_keeps w url st) as Hsh1.
    destruct (resolution_step w url st) as [[clean|e] st1]; cbn [fst snd] in *;
      [|reflexivity].
    rewrite goto_step_no_page by congruence. reflexivity.
  - intros Hpage Hplain. unfold out.
    rewrite NavigateTool_execute_with_session by assumption.
    unfold resolution_step. rewrite Hplain. cbn [ret fst snd].
    now apply goto_step_no_page.
  - now apply run_tools_keep_session.
  - eapply grows_impl; [|now apply run_tools_keep_session].
    intros e. apply quiet_no_session.
Qed.

Lemma half_built_session_is_never_repaired_witness :
  shared half_built
  = {| playwright := Some 1; browser := None; page := None |}
  /\ NavigateTool_execute (world_of shop_without_chromium)
       "https://shop.example/item/43" half_built
     = (Ok no_page_error, half_built).
Proof.
  split; [reflexivity|].
  destruct (half_built_session_is_never_repaired
              (world_of shop_without_chromium)
              "https://shop.example/item/43" half_built)
    as (_ & _ & _ & Hplain & _).
  - discriminate.
  - apply Hplain; reflexivity.
Defined.

(** C9 as stated does not hold: in the half-built state a search-engine
    link does not yield a "Navigation Error" string; the failed launch of
    the resolver's own browser propagates out of the tool. *)
Lemma half_built_session_can_raise :
  shared half_built
  = {| playwright := Some 1; browser := None; page := None |}
  /\ fst (NavigateTool_execute (world_of shop_without_chromium) search_link
            half_built)
     = Raise "BrowserType.launch: Executable doesn't exist".
Proof. split; reflexivity. Qed.

(** ** Faults at the tool boundary *)




Lemma goto_step_message (w : World) (clean_url : string) (st : state) :
  exists s, fst (goto_step w clean_url st) = Ok s /\ navigation_message s.
Proof.
  unfold goto_step, bind at 1, get_shared, try_except.
  destruct (page (shared st)) as [pg|].
  2:{ eexists. split; [reflexivity | right; eexists; reflexivity]. }
  unfold bind, perform, try_except, ret. cbn.
  destruct (act w _ (trace st) (PageGoto pg clean_url 60000)) as [[]|e]; cbn.
  2:{ eexists. split; [reflexivity | right; now exists e]. }
  destruct (act w _ _ (GetByTextClick pg "Accept" 2000)) as [[]|e]; cbn;
    (eexists; split; [reflexivity | left; now exists clean_url]).
Qed.

Lemma NavigateTool_execute_unfold (w : World) (url : string) (st : state) :
  NavigateTool_execute w url st
  = match resolution_step w url st with
    | (Ok clean_url, st1) =>
        match session_step w st1 with
        | (Ok _, st2) => goto_step w clean_url st2
        | (Raise e, st2) => (Raise e, st2)
        end
    | (Raise e, st1) => (Raise e, st1)
    end.
Proof. reflexivity. Qed.



(** ** When the resolver is invoked *)

Lemma resolve_url_headless_first_event (w : World) (dirty_url : string)
    (st : state) :
  exists r evs,
    trace (snd (resolve_url_headless w dirty_url st))
    = trace st ++ Ev AsyncPlaywrightEnter r :: evs.
Proof.
  unfold resolve_url_headless, bind at 1, perform at 1.
  destruct (act w _ (trace st) AsyncPlaywrightEnter) as [p|e] eqn:Hp; cbv zeta.
  - match goal with |- context [snd (?m (log ?ev st))] =>
      assert (emits (fun _ => True) m) as H
        by (unfold resolve_body, extract_from_href, click_offer_row; walk_with);
      destruct (H (log ev st)) as (evs & Htr & _) end.
    exists (Ok p), evs. rewrite Htr. unfold log. cbn. now rewrite <- app_assoc.
  - exists (Raise e), []. reflexivity.
Qed.

Lemma after_resolution_direct (w : World) (clean_url : string) :
  emits (direct clean_url) (session_step w;;; goto_step w clean_url).
Proof.
  apply emits_bind; [apply session_step_direct|].
  intros _. apply goto_step_direct.
Qed.

Lemma goto_step_unfold (w : World) (clean_url : string) (st : state) :
  goto_step w clean_url st
  = match page (shared st) with
    | None => (Ok no_page_error, st)
    | Some pg =>
        let loaded := act w _ (trace st) (PageGoto pg clean_url 60000) in
        let st2 := log (Ev (PageGoto pg clean_url 60000) loaded) st in
        match loaded with
        | Raise e => (Ok ("Navigation Error: " +:+ e), st2)
        | Ok _ =>
            (Ok ("✅ Browser Opened. Navigated to: " +:+ clean_url),
             log (Ev (GetByTextClick pg "Accept" 2000)
                    (act w _ (trace st2) (GetByTextClick pg "Accept" 2000)))
               st2)
        end
    end.
Proof.
  unfold goto_step, bind at 1, get_shared, try_except.
  destruct (page (shared st)) as [pg|]; [|reflexivity].
  unfold bind, perform, try_except, ret. cbn.
  destruct (act w _ (trace st) (PageGoto pg clean_url 60000)) as [[]|e]; cbn;
    [|reflexivity].
  now destruct (act w _ _ (GetByTextClick pg "Accept" 2000)) as [[]|e].
Qed.

(** C10: [NavigateTool.execute] starts the headless resolver exactly when
    the percent-decoded URL contains the text [google.com], wherever in the
    URL it stands: then the first thing the call does is to enter the
    resolver's own Playwright context, and the visible browser is sent to
    what the resolver returns.  Otherwise no resolver call is made at all
    and the visible browser is sent to the decoded URL itself: once the
    visible session is there (found, or created by this call) the stored
    page is navigated to exactly that URL, as the first call on the page.
    ([visit] spells out what follows the resolution: only a session that
    cannot be created, or a stored page that is [None], keeps the
    navigation from being made.) *)
Theorem resolution_iff_decoded_url_contains_google (w : World) (url : string)
    (st : state) :
  let decoded_url := unquote w url in
  let visit (clean_url : string) (st0 : state) :=
    match session_step w st0 with
    | (Raise e, st1) => (Raise e, st1)
    | (Ok _, st1) =>
        match page (shared st1) with
        | None => (Ok no_page_error, st1)
        | Some pg =>
            let loaded := act w _ (trace st1) (PageGoto pg clean_url 60000) in
            let st2 := log (Ev (PageGoto pg clean_url 60000) loaded) st1 in
            match loaded with
            | Raise e => (Ok ("Navigation Error: " +:+ e), st2)
            | Ok _ =>
                (Ok ("✅ Browser Opened. Navigated to: " +:+ clean_url),
                 log (Ev (GetByTextClick pg "Accept" 2000)
                        (act w _ (trace st2)
                           (GetByTextClick pg "Accept" 2000))) st2)
            end
        end
    end in
  exists evs,
    trace (snd (NavigateTool_execute w url st)) = trace st ++ evs
    /\ (contains "google.com" decoded_url = true ->
        exists r rest, evs = Ev AsyncPlaywrightEnter r :: rest)
    /\ (contains "google.com" decoded_url = false ->
        Forall (direct decoded_url) evs)
    /\ (Exists (fun e => resolver_event e = true) evs
        <-> contains "google.com" decoded_url = true)
    /\ (contains "google.com" decoded_url = true
        <-> exists before after,
              decoded_url = before +:+ "google.com" +:+ after)
    /\ (contains "google.com" decoded_url = false ->
        NavigateTool_execute w url st = visit decoded_url st)
    /\ (contains "google.com" decoded_url = true ->
        NavigateTool_execute w url st
        = match resolve_url_headless w decoded_url st with
          | (Ok clean_url, st0) => visit clean_url st0
          | (Raise e, st0) => (Raise e, st0)
          end)
    /\ (contains "google.com" decoded_url = false ->
        forall pg,
          is_ok (fst (session_step w st)) = true ->
          page (shared (snd (session_step w st))) = Some pg ->
          exists before r after,
            evs = before ++ Ev (PageGoto pg decoded_url 60000) r :: after
            /\ trace (snd (session_step w st)) = trace st ++ before).
Proof.
  intros decoded_url visit.
  assert (forall clean_url st0,
            visit clean_url st0
            = match session_step w st0 with
              | (Ok _, st1) => goto_step w clean_url st1
              | (Raise e, st1) => (Raise e, st1)
              end) as Hvisit.
  { intros clean_url st0. unfold visit.
    destruct (session_step w st0) as [[[]|e] st1]; [|reflexivity].
    now rewrite goto_step_unfold. }
  destruct (contains "google.com" decoded_url) eqn:Hc.
  - assert (NavigateTool_execute w url st
            = match resolve_url_headless w decoded_url st with
              | (Ok clean_url, st0) => visit clean_url st0
              | (Raise e, st0) => (Raise e, st0)
              end) as Hrun.
    { rewrite NavigateTool_execute_unfold. unfold resolution_step.
      fold decoded_url. rewrite Hc.
      destruct (resolve_url_headless w decoded_url st) as [[clean|e] st0];
        [|reflexivity].
      now rewrite Hvisit. }
    assert (exists r rest,
              trace (snd (NavigateTool_execute w url st))
              = trace st ++ Ev AsyncPlaywrightEnter r :: rest)
      as (r & rest & Htr).
    { rewrite NavigateTool_execute_steps. unfold bind at 1.
      unfold resolution_step. fold decoded_url. rewrite Hc.
      destruct (resolve_url_headless_first_event w decoded_url st)
        as (r & evs1 & Htr1).
      destruct (resolve_url_headless w decoded_url st) as [[clean|e] st1];
        cbn [fst snd] in *.
      - destruct (after_resolution_direct w clean st1) as (evs2 & Htr2 & _).
        exists r, (evs1 ++ evs2). rewrite Htr2, Htr1.
        now rewrite <- app_assoc.
      - now exists r, evs1. }
    exists (Ev AsyncPlaywrightEnter r :: rest).
    split; [exact Htr|]. split; [intros _; now exists r, rest|].
    split; [discriminate|]. split; [|split; [|split; [|split]]].
    + split; [reflexivity|]. intros _. apply Exists_cons_hd. reflexivity.
    + split; [intros _; now apply contains_true_iff | reflexivity].
    + discriminate.
    + intros _. exact Hrun.
    + discriminate.
  - assert (NavigateTool_execute w url st = visit decoded_url st) as Hrun.
    { rewrite NavigateTool_execute_unfold. unfold resolution_step.
      fold decoded_url. rewrite Hc. cbn [ret]. now rewrite Hvisit. }
    assert (grows (direct decoded_url) st (snd (NavigateTool_execute w url st)))
      as (evs & Htr & Hdirect).
    { rewrite NavigateTool_execute_steps. unfold bind at 1.
      unfold resolution_step. fold decoded_url. rewrite Hc. cbn [ret].
      apply after_resolution_direct. }
    exists evs.
    split; [exact Htr|]. split; [discriminate|].
    split; [intros _; exact Hdirect|]. split; [|split; [|split; [|split]]].
    + split; [|discriminate].
      intros Hex. apply Exists_exists in Hex as (e & Hin & He).
      rewrite Forall_forall in Hdirect. destruct (Hdirect e Hin) as [Hno _].
      congruence.
    + split; [discriminate|].
      intros H. apply contains_true_iff in H. congruence.
    + intros _. exact Hrun.
    + discriminate.
    + intros _ pg Hok Hpage.
      destruct (session_step_direct w decoded_url st) as (before & Hbefore & _).
      rewrite Hrun in Htr. unfold visit in Htr.
      destruct (session_step w st) as [[[]|e] st1]; cbn [fst snd] in *;
        [|discriminate Hok].
      rewrite Hpage in Htr. cbv zeta in Htr.
      exists before, (act w _ (trace st1) (PageGoto pg decoded_url 60000)).
      destruct (act w _ (trace st1) (PageGoto pg decoded_url 60000))
        as [[]|e]; cbn [snd log trace] in Htr;
        rewrite Hbefore, <- ?app_assoc in Htr;
        apply app_inv_head in Htr; eexists; (split; [|exact Hbefore]);
        now rewrite <- Htr.
Qed.

(** A shop URL that merely mentions the search engine in a query parameter,
    percent-encoded, is resolved headlessly all the same; a plain shop URL
    is not, and the page of the session the call creates is navigated to
    it. *)
Lemma resolution_iff_decoded_url_contains_google_witness :
  let url := "https://shop.example/item/42?ref=google%2Ecom" in
  (contains "google.com" (percent_decode url) = true
   /\ exists r rest,
        trace (snd (NavigateTool_execute (world_of shop) url initial_state))
        = Ev AsyncPlaywrightEnter r :: rest)
  /\ exists before r after,
       trace (snd (NavigateTool_execute (world_of shop)
                     "https://shop.example/item/42" initial_state))
       = before ++ Ev (PageGoto 4 "https://shop.example/item/42" 60000) r
                :: after.
Proof.
  intros url. split.
  - split; [reflexivity|].
    destruct (resolution_iff_decoded_url_contains_google (world_of shop) url
                initial_state) as (evs & Htr & Hyes & _).
    destruct (Hyes eq_refl) as (r & rest & ->). now exists r, rest.
  - destruct (resolution_iff_decoded_url_contains_google (world_of shop)
                "https://shop.example/item/42" initial_state)
      as (evs & Htr & _ & _ & _ & _ & _ & _ & Hgoto).
    destruct (Hgoto eq_refl 4 eq_refl eq_refl)
      as (before & r & after & -> & _).
    now exists before, r, after.
Defined.

(** * Further properties *)

(** ** Encoding and decoding of links *)

Lemma percent_decode_quoted_char (c : ascii) (t : string) :
  percent_decode
    (if always_safe c || (nat_of_ascii c =? 47)
     then String c t
     else String "%"%char
            (String (hex_digit (nat_of_ascii c / 16))
               (String (hex_digit (nat_of_ascii c mod 16)) t)))
  = String c (percent_decode t).
Proof.
  destruct c as [[] [] [] [] [] [] [] []]; reflexivity.
Qed.

(** X1: decoding undoes encoding.  The link [VisualSearchTool] puts in a
    card with [quote] is recovered byte for byte by the percent-decoding
    [NavigateTool] starts with. *)
Theorem percent_decode_quote (s : string) : percent_decode (quote s) = s.
Proof.
  induction s as [|c s IH]; [reflexivity|].
  rewrite quote_cons, percent_decode_quoted_char. now rewrite IH.
Qed.

(** X2: an encoded link is made of letters, digits and the characters
    [_.-~/%] only.  In particular it holds no quote, angle bracket or space,
    so it cannot end the JavaScript string or the [onclick] attribute of
    the card button it is written into. *)
Theorem quote_alphabet (s : string) :
  string_forallb url_char (quote s) = true
  /\ contains "'" (quote s) = false
  /\ contains dquote (quote s) = false
  /\ contains "<" (quote s) = false
  /\ contains ">" (quote s) = false
  /\ contains " " (quote s) = false.
Proof.
  assert (string_forallb url_char (quote s) = true) as Hall.
  { induction s as [|c s IH]; [reflexivity|].
    now rewrite quote_cons, url_char_quoted_char. }
  repeat split; try exact Hall;
    apply (string_forallb_excludes url_char _ _ Hall); reflexivity.
Qed.

(** ** The search renderer, beyond the cap *)

(** X3: without a key in the environment ([SERPAPI_KEY] unset or empty) the
    search tool answers with its inline error and does nothing else: the
    search API is not called and the state is untouched. *)
Theorem visual_search_without_key (w : World) (q : string) (st : state) :
  obs w _ (trace st) (Getenv "SERPAPI_KEY") = None
  \/ obs w _ (trace st) (Getenv "SERPAPI_KEY") = Some "" ->
  VisualSearchTool_execute w q st
  = (Ok "<div>Error: SERPAPI_KEY missing.</div>", st).
Proof.
  intros [H|H]; unfold VisualSearchTool_execute, bind, observe, ret;
    now rewrite H.
Qed.

Lemma visual_search_without_key_witness :
  VisualSearchTool_execute (world_of keyless_shop) "red sneakers" initial_state
  = (Ok "<div>Error: SERPAPI_KEY missing.</div>", initial_state).
Proof. apply visual_search_without_key. left. reflexivity. Defined.



Lemma render_cards_filter (P : item -> Prop) `{!forall p, Decision (P p)}
    (results : list item) (count : nat) (html : string) :
  (forall p, p ∈ results -> ~ P p -> unlinked p = true) ->
  render_cards results count html
  = render_cards (filter P results) count html.
Proof.
  revert count html. induction results as [|p rest IH]; intros count html Hskip;
    [reflexivity|].
  assert (forall p', p' ∈ rest -> ~ P p' -> unlinked p' = true) as Hrest
    by (intros p' Hin; apply Hskip; now apply list_elem_of_further).
  destruct (le_lt_dec 6 count) as [Hc|Hc].
  { now rewrite !render_cards_full by exact Hc. }
  apply Nat.leb_gt in Hc.
  rewrite filter_cons. destruct (decide (P p)) as [Hp|Hp].
  - rewrite !render_cards_cons, Hc.
    destruct p as [fields|e]; [|reflexivity].
    destruct (raw_link_of fields) as [raw|]; [|now apply IH].
    destruct (quote_value raw); [now apply IH | reflexivity].
  - rewrite render_cards_cons, Hc.
    specialize (Hskip p (list_elem_of_here _ _) Hp).
    destruct p as [fields|e]; [|discriminate]. cbn [unlinked] in Hskip.
    destruct (raw_link_of fields); [discriminate|]. now apply IH.
Qed.

(** X5: the items the loop passes over (objects without a usable link) do
    not influence its outcome at all: the loop treats a result list
    exactly as it treats the list without them.  When every item is an
    object, these are the items without a usable link, and the loop
    renders the list as it renders the list of its linked items. *)
Theorem render_cards_ignores_unlinked (results : list item) (html : string) :
  render_cards results 0 html
  = render_cards (filter (fun p => unlinked p = false) results) 0 html
  /\ (forallb is_object results = true ->
      render_cards results 0 html
      = render_cards (filter has_link results) 0 html).
Proof.
  split.
  - apply render_cards_filter. intros p _ Hp. now destruct (unlinked p).
  - intros Hobjects. apply render_cards_filter. intros p Hin Hp.
    rewrite forallb_forall in Hobjects.
    apply list_elem_of_In, Hobjects in Hin.
    destruct p as [fields|e]; [|discriminate Hin]. cbn [unlinked].
    destruct (raw_link_of fields) as [raw|] eqn:Hraw; [|reflexivity].
    exfalso. eapply Hp, has_link_linked, Hraw.
Qed.

Lemma render_cards_app_full (results more : list item) (count : nat)
    (html : string) :
  6 - count <= length (filter has_link results) ->
  render_cards (results ++ more) count html = render_cards results count html.
Proof.
  revert count html. induction results as [|p rest IH]; intros count html H.
  - cbn in H. now rewrite !render_cards_full by lia.
  - rewrite <- app_comm_cons, !render_cards_cons.
    destruct (6 <=? count) eqn:Hc; [reflexivity|]. apply Nat.leb_gt in Hc.
    destruct p as [fields|e]; [|reflexivity].
    destruct (raw_link_of fields) as [raw|] eqn:Hraw.
    + rewrite filter_cons_True in H by (eapply has_link_linked; eauto).
      cbn [length] in H. destruct (quote_value raw); [|reflexivity].
      apply IH. lia.
    + rewrite filter_cons_False in H by (now apply has_link_unlinked).
      now apply IH.
Qed.

(** X6: once six linked items have been rendered the loop stops reading:
    whatever follows them in the response, linked or not, well-formed or
    not, leaves the outcome unchanged. *)
Theorem render_cards_stops_at_six (results more : list item) (html : string) :
  6 <= length (filter has_link results) ->
  render_cards (results ++ more) 0 html = render_cards results 0 html.
Proof.
  intros Hsix. apply render_cards_app_full.
  cbn [Nat.sub]. exact Hsix.
Qed.

Lemma render_cards_stops_at_six_witness :
  render_cards (red_sneakers ++ red_sneakers) 0 ""
  = render_cards red_sneakers 0 "".
Proof. apply render_cards_stops_at_six. vm_compute. lia. Defined.

(** ** The navigator, call by call *)

(** X7: on an existing session and for a URL that needs no resolution, the
    tool makes one navigation of the stored page to the decoded URL.  If it
    succeeds the result is the success string with that exact URL, whatever
    becomes of the cookie-banner click that follows; if it fails the result
    is "Navigation Error: ..." with the cause and the banner is not looked
    for.  The handles are left alone either way. *)
Theorem navigate_on_existing_session (w : World) (url : string) (st : state)
    (pg : handle) :
  playwright (shared st) <> None ->
  page (shared st) = Some pg ->
  contains "google.com" (unquote w url) = false ->
  let decoded_url := unquote w url in
  let loaded := act w _ (trace st) (PageGoto pg decoded_url 60000) in
  let st1 := log (Ev (PageGoto pg decoded_url 60000) loaded) st in
  NavigateTool_execute w url st
  = match loaded with
    | Ok _ =>
        (Ok ("✅ Browser Opened. Navigated to: " +:+ decoded_url),
         log (Ev (GetByTextClick pg "Accept" 2000)
                (act w _ (trace st1) (GetByTextClick pg "Accept" 2000))) st1)
    | Raise e => (Ok ("Navigation Error: " +:+ e), st1)
    end.
Proof.
  intros Hpw Hpage Hplain decoded_url loaded st1.
  rewrite NavigateTool_execute_with_session by assumption.
  unfold resolution_step. cbv zeta. rewrite Hplain. cbn [ret fst snd].
  unfold goto_step, bind at 1, get_shared. rewrite Hpage.
  unfold try_except, bind, perform, ret. cbn.
  subst st1 loaded decoded_url.
  destruct (act w _ (trace st) (PageGoto pg (unquote w url) 60000))
    as [[]|e]; [|reflexivity].
  cbn. now destruct (act w _ _ (GetByTextClick pg "Accept" 2000)).
Qed.

Lemma navigate_on_existing_session_witness :
  let st := snd (NavigateTool_execute (world_of shop)
                   "https://shop.example/item/42" initial_state) in
  fst (NavigateTool_execute (world_of shop) "https%3A//shop.example/item/43" st)
  = Ok "✅ Browser Opened. Navigated to: https://shop.example/item/43".
Proof.
  intros st.
  rewrite (navigate_on_existing_session (world_of shop)
             "https%3A//shop.example/item/43" st 4);
    [reflexivity | discriminate | reflexivity | reflexivity].
Defined.

Lemma launch_visible_browser_starts (w : World) (st : state) :
  exists rest,
    trace (snd (launch_visible_browser w st))
    = trace st
      ++ Ev AsyncPlaywrightStart (act w _ (trace st) AsyncPlaywrightStart)
         :: rest.
Proof.
  unfold launch_visible_browser, bind at 1, perform at 1.
  destruct (act w _ (trace st) AsyncPlaywrightStart) as [p|e] eqn:Hp;
    cbv zeta; [|now exists []].
  match goal with |- context [snd (?m (log ?ev st))] =>
    assert (emits (fun _ => True) m) as H by walk_with;
    destruct (H (log ev st)) as (evs & Htr & _) end.
  exists evs. rewrite Htr. unfold log. cbn. now rewrite <- app_assoc.
Qed.

Lemma NavigateTool_execute_starts_driver (w : World) (url : string)
    (st : state) :
  playwright (shared st) = None ->
  contains "google.com" (unquote w url) = false ->
  exists rest,
    trace (snd (NavigateTool_execute w url st))
    = trace st
      ++ Ev AsyncPlaywrightStart (act w _ (trace st) AsyncPlaywrightStart)
         :: rest.
Proof.
  intros Hpw Hplain. rewrite NavigateTool_execute_unfold.
  unfold resolution_step. cbv zeta. rewrite Hplain. cbn [ret].
  unfold session_step, bind at 1, get_shared. rewrite Hpw.
  destruct (launch_visible_browser_starts w st) as (rest & Htr).
  destruct (launch_visible_browser w st) as [[[]|e] st1]; cbn [fst snd] in *.
  - destruct (goto_step_direct w (unquote w url) st1) as (evs & Htr1 & _).
    exists (rest ++ evs). rewrite Htr1, Htr. now rewrite <- app_assoc.
  - now exists rest.
Qed.

(** X8: if the Playwright driver itself cannot be started, the first
    navigation raises that fault and stores nothing, so the session is not
    half-built: the next navigation starts over with a new attempt to start
    the driver. *)
Theorem navigate_retries_after_failed_start (w : World) (url url' : string)
    (st : state) (e : exn) :
  playwright (shared st) = None ->
  contains "google.com" (unquote w url) = false ->
  contains "google.com" (unquote w url') = false ->
  act w _ (trace st) AsyncPlaywrightStart = Raise e ->
  let st1 := log (Ev AsyncPlaywrightStart (Raise e)) st in
  NavigateTool_execute w url st = (Raise e, st1)
  /\ exists rest,
       trace (snd (NavigateTool_execute w url' st1))
       = trace st1
         ++ Ev AsyncPlaywrightStart (act w _ (trace st1) AsyncPlaywrightStart)
            :: rest.
Proof.
  intros Hpw Hplain Hplain' Hstart st1. split.
  - rewrite NavigateTool_execute_unfold.
    unfold resolution_step. cbv zeta. rewrite Hplain. cbn [ret].
    unfold session_step, bind at 1, get_shared. rewrite Hpw.
    unfold launch_visible_browser, bind at 1, perform at 1.
    now rewrite Hstart.
  - now apply NavigateTool_execute_starts_driver.
Qed.

Lemma navigate_retries_after_failed_start_witness :
  let first := NavigateTool_execute (world_of shop_without_driver)
                 "https://shop.example/item/42" initial_state in
  fst first = Raise "Driver not found"
  /\ shared (snd first) = SHARED_BROWSER_STATE
  /\ trace (snd (NavigateTool_execute (world_of shop_without_driver)
                   "https://shop.example/item/42" (snd first)))
     = [ Ev AsyncPlaywrightStart (Raise "Driver not found");
         Ev AsyncPlaywrightStart (Raise "Driver not found") ].
Proof.
  intros first.
  destruct (navigate_retries_after_failed_start (world_of shop_without_driver)
              "https://shop.example/item/42" "https://shop.example/item/42"
              initial_state "Driver not found" eq_refl eq_refl eq_refl eq_refl)
    as [Hrun _].
  unfold first. rewrite Hrun. repeat split; reflexivity.
Defined.

(** X9: a first navigation on which the four creation calls succeed stores
    exactly the handles they returned, and then loads the decoded URL in
    the page it has just opened; whether that load succeeds or not, the
    call returns a string and the session stays. *)
Theorem navigate_stores_created_handles (w : World) (url : string) (st : state)
    (p b c pg : handle) :
  playwright (shared st) = None ->
  contains "google.com" (unquote w url) = false ->
  creates_session w (trace st) p b c pg ->
  let out := NavigateTool_execute w url st in
  shared (snd out)
  = {| playwright := Some p; browser := Some b; page := Some pg |}
  /\ (exists s, fst out = Ok s /\ navigation_message s)
  /\ exists r rest,
       trace (snd out)
       = trace st ++ session_prefix p b c pg
         ++ Ev (PageGoto pg (unquote w url) 60000) r :: rest.
Proof.
  intros Hpw Hplain (Hp & Hb & Hc & Hpg) out.
  set (st1 := {| shared := {| playwright := Some p; browser := Some b;
                              page := Some pg |};
                 trace := trace st ++ session_prefix p b c pg |}).
  assert (launch_visible_browser w st = (Ok tt, st1)) as Hrun.
  { unfold launch_visible_browser, bind, perform, get_shared, put_shared, log.
    cbn. rewrite Hp. cbn. rewrite Hb. cbn. rewrite Hc. cbn. rewrite Hpg. cbn.
    unfold st1, session_prefix. now rewrite <- !app_assoc. }
  assert (out = goto_step w (unquote w url) st1) as ->.
  { unfold out. rewrite NavigateTool_execute_unfold.
    unfold resolution_step. cbv zeta. rewrite Hplain. cbn [ret].
    unfold session_step, bind at 1, get_shared. rewrite Hpw.
    now rewrite Hrun. }
  split; [now rewrite goto_step_keeps|].
  split; [apply goto_step_message|].
  unfold goto_step, bind at 1, get_shared. cbn [shared st1 page].
  unfold try_except, bind, perform, ret. cbn.
  destruct (act w _ _ (PageGoto pg (unquote w url) 60000)) as [[]|e]; cbn.
  - destruct (act w _ _ (GetByTextClick pg "Accept" 2000)); cbn;
      eexists; eexists; rewrite <- !app_assoc; cbn; reflexivity.
  - eexists. exists []. now rewrite <- !app_assoc.
Qed.

Lemma navigate_stores_created_handles_witness :
  shared (snd (NavigateTool_execute (world_of shop)
                 "https://shop.example/item/42" initial_state))
  = {| playwright := Some 1; browser := Some 2; page := Some 4 |}.
Proof.
  destruct (navigate_stores_created_handles (world_of shop)
              "https://shop.example/item/42" initial_state 1 2 3 4)
    as [Hsh _];
    [reflexivity | reflexivity | repeat split; reflexivity | exact Hsh].
Defined.

Lemma resolver_event_no_visible_goto (e : event) :
  resolver_event e = true -> visible_goto_url e = None.
Proof.
  destruct e as [T c r|secs]; [|discriminate].
  destruct c; cbn; try discriminate; try reflexivity.
  intros H. apply N.eqb_eq in H as ->. reflexivity.
Qed.

(** X10: the visible browser is only ever sent to what redirect resolution
    returned: in every call, each navigation of the visible page has the
    resolved URL as its target, and if the resolution raised there is no
    such navigation at all. *)
Theorem navigate_loads_only_the_resolved_url (w : World) (url : string)
    (st : state) :
  let resolved := fst (resolution_step w url st) in
  grows (fun e => forall u, visible_goto_url e = Some u -> resolved = Ok u)
    st (snd (NavigateTool_execute w url st)).
Proof.
  cbv zeta. rewrite NavigateTool_execute_unfold.
  pose proof (resolution_step_emits w url st) as Hres.
  destruct (resolution_step w url st) as [[clean|e] st1]; cbn [fst snd] in *.
  - eapply grows_trans.
    + eapply grows_impl; [|exact Hres]. intros ev Hev u Hu.
      rewrite (resolver_event_no_visible_goto ev Hev) in Hu. discriminate.
    + pose proof (after_resolution_direct w clean st1) as Hrest.
      unfold bind at 1 in Hrest.
      destruct (session_step w st1) as [[[]|e] st2]; cbn [fst snd] in *;
        (eapply grows_impl; [|exact Hrest]);
        intros ev [_ Hev] u Hu; now rewrite (Hev u Hu).
  - eapply grows_impl; [|exact Hres]. intros ev Hev u Hu.
    rewrite (resolver_event_no_visible_goto ev Hev) in Hu. discriminate.
Qed.

(** ** The resolver's own session *)

(** X11: the headless resolver is isolated from the visible session: on
    every path it leaves [SHARED_BROWSER_STATE] as it is, creates no part of
    the visible session and performs no operation on a visible page. *)
Theorem resolver_is_isolated (w : World) (dirty_url : string) (st : state) :
  let st' := snd (resolve_url_headless w dirty_url st) in
  shared st' = shared st
  /\ grows (fun e => resolver_event e = true
                     /\ session_event e = false
                     /\ visible_page_of e = None) st st'.
Proof.
  cbv zeta. split; [apply resolve_url_headless_keeps|].
  eapply grows_impl; [|apply resolve_url_headless_emits].
  intros e He. split; [exact He|].
  destruct e as [T c r|secs]; [|discriminate].
  destruct c; cbn in *; try discriminate; try (split; reflexivity).
  - now destruct headless.
  - apply N.eqb_eq in He as ->. now split.
  - now destruct force.
Qed.

(** X12: the resolver's Playwright context is released on every path: if
    it was entered, leaving it is the last thing the call does, whatever
    failed in between (the launch, the page, the navigation, the close);
    and if entering fails nothing else is attempted. *)
Theorem resolver_always_leaves_context (w : World) (dirty_url : string)
    (st : state) :
  match act w _ (trace st) AsyncPlaywrightEnter with
  | Ok p =>
      exists evs r,
        trace (snd (resolve_url_headless w dirty_url st))
        = trace st ++ Ev AsyncPlaywrightEnter (Ok p) :: evs
          ++ [Ev (AsyncPlaywrightExit p) r]
        /\ Forall (fun e => context_event e = false) evs
  | Raise e =>
      resolve_url_headless w dirty_url st
      = (Raise e, log (Ev AsyncPlaywrightEnter (Raise e)) st)
  end.
Proof.
  destruct (act w _ (trace st) AsyncPlaywrightEnter) as [p|e] eqn:Hp.
  2:{ unfold resolve_url_headless, bind at 1, perform at 1.
      now rewrite Hp. }
  unfold resolve_url_headless, bind at 1, perform at 1. rewrite Hp.
  cbv zeta. unfold try_finally.
  match goal with |- context [?m (log ?ev st)] =>
    match m with bind _ _ =>
      assert (emits (fun e => context_event e = false) m) as H
        by (unfold resolve_body, extract_from_href, click_offer_row; walk_with);
      destruct (H (log ev st)) as (evs & Htr & Hevs);
      destruct (m (log ev st)) as [r st2]
    end
  end.
  cbn [snd] in Htr. unfold perform.
  exists evs, (act w _ (trace st2) (AsyncPlaywrightExit p)). split; [|exact Hevs].
  destruct (act w _ (trace st2) (AsyncPlaywrightExit p)) as [[]|e];
    cbn; rewrite Htr; unfold log; cbn; now rewrite <- !app_assoc.
Qed.

(** X13: the resolver closes its browser exactly when it could open its
    page: one [browser.close()] per opened page, after everything else done
    on it, and none when the launch or [new_page] failed.  A browser that
    was launched but whose page could not be opened is therefore never
    closed by the resolver itself. *)
Theorem resolver_closes_iff_page_opened (w : World) (dirty_url : string)
    (st : state) :
  exists evs,
    trace (snd (resolve_url_headless w dirty_url st)) = trace st ++ evs
    /\ count opens_page evs <= 1
    /\ count closes_browser evs = count opens_page evs.
Proof.
  unfold resolve_url_headless, bind at 1, perform at 1.
  destruct (act w _ (trace st) AsyncPlaywrightEnter) as [p|e]; cbv zeta.
  2:{ eexists. split; [reflexivity | cbn; lia]. }
  unfold try_finally, bind at 1, perform at 1.
  destruct (act w _ _ (ChromiumLaunch p true)) as [b|e]; cbv zeta.
  2:{ unfold perform, log. cbn.
      destruct (act w _ _ (AsyncPlaywrightExit p)) as [[]|e']; cbn;
        (eexists; split; [rewrite <- !app_assoc; reflexivity | cbn; lia]). }
  unfold bind at 1, perform at 1.
  destruct (act w _ _ (BrowserNewPage b USER_AGENT)) as [pg|e]; cbv zeta.
  2:{ unfold perform, log. cbn.
      destruct (act w _ _ (AsyncPlaywrightExit p)) as [[]|e']; cbn;
        (eexists; split; [rewrite <- !app_assoc; reflexivity | cbn; lia]). }
  match goal with |- context [try_except ?m ?h ?s] =>
    assert (emits (fun e => closes_browser e = false /\ opens_page e = false)
              (try_except m h)) as H
      by (unfold resolve_body, extract_from_href, click_offer_row; walk;
          try (apply emits_perform; intros ?; split; reflexivity));
    destruct (H s) as (evs & Htr & Hevs);
    destruct (try_except m h s) as [r st4]
  end.
  cbn [snd] in Htr.
  assert (count closes_browser evs = 0 /\ count opens_page evs = 0)
    as [Hc Ho].
  { split; apply count_none; eapply Forall_impl; try exact Hevs;
      intros e He; apply He. }
  unfold perform, log. cbn.
  exists ([ Ev AsyncPlaywrightEnter (Ok p); Ev (ChromiumLaunch p true) (Ok b);
            Ev (BrowserNewPage b USER_AGENT) (Ok pg) ]
          ++ evs
          ++ [ Ev (BrowserClose b) (act w _ (trace st4) (BrowserClose b)) ]
          ++ [ Ev (AsyncPlaywrightExit p)
                 (act w _ (trace st4
                           ++ [Ev (BrowserClose b)
                                 (act w _ (trace st4) (BrowserClose b))])
                    (AsyncPlaywrightExit p)) ]).
  split.
  - destruct (act w _ (trace st4) (BrowserClose b)) as [[]|e]; cbn;
      destruct (act w _ _ (AsyncPlaywrightExit p)) as [[]|e']; cbn;
      rewrite Htr; cbn; now rewrite <- !app_assoc.
  - rewrite !count_app, Hc, Ho. cbn. lia.
Qed.

(** X14: the fast path.  With its browser up, when the navigation lands on
    a page whose URL contains [google.com], that page has a redirect anchor
    and the anchor's [href] carries a non-empty [q] parameter, the resolver
    returns that parameter at once: the offer row is not clicked, and the
    browser and the context are released. *)
Theorem resolver_fast_path (w : World) (dirty_url : string) (st : state)
    (p b pg : handle) (n : nat) (raw : option string) (clean : string) :
  opens_headless_page w (trace st) p b pg ->
  releases w p b ->
  let goto := Ev (PageGoto pg dirty_url 30000) (Ok tt) in
  let counted := Ev (LocatorCount pg "a[href*='url?q=']") (Ok (S n)) in
  let read := Ev (LocatorGetAttribute pg "a[href*='url?q=']" "href") (Ok raw) in
  let tr := trace (opened st p b pg) in
  act w _ tr (PageGoto pg dirty_url 30000) = Ok tt ->
  contains "google.com" (obs w _ (tr ++ [goto]) (PageUrl pg)) = true ->
  act w _ (tr ++ [goto]) (LocatorCount pg "a[href*='url?q=']") = Ok (S n) ->
  act w _ ((tr ++ [goto]) ++ [counted])
    (LocatorGetAttribute pg "a[href*='url?q=']" "href") = Ok raw ->
  href_q w raw = Ok (Some clean) ->
  truthy clean = true ->
  resolve_url_headless w dirty_url st
  = (Ok clean,
     {| shared := shared st;
        trace := trace st ++ headless_prefix p b pg
                 ++ [ goto; counted; read;
                      Ev (BrowserClose b) (Ok tt);
                      Ev (AsyncPlaywrightExit p) (Ok tt) ] |}).
Proof.
  intros Hopen Hrel goto counted read tr Hgoto Hsearch Hcount Hread Hq Hclean.
  rewrite (resolve_url_headless_run w dirty_url st p b pg Hopen Hrel).
  assert (try_except (resolve_body w pg dirty_url) (fun _ => ret dirty_url)
            (opened st p b pg)
          = (Ok clean,
             {| shared := shared st;
                trace := ((tr ++ [goto]) ++ [counted]) ++ [read] |})) as ->.
  { unfold try_except, resolve_body, extract_from_href, bind, perform, observe,
      lift, ret, try_except, log.
    subst tr. remember (opened st p b pg) as st3 eqn:Hst3.
    assert (shared st3 = shared st) as Hsh by (subst st3; reflexivity).
    cbn. rewrite Hgoto. cbn. fold goto. rewrite Hsearch. cbn.
    rewrite Hcount. cbn. fold counted. rewrite Hread. cbn. rewrite Hq.
    cbn. rewrite Hclean. cbn. now rewrite Hsh. }
  cbn [fst snd]. unfold log. cbn [shared trace]. f_equal. f_equal.
  subst tr. rewrite opened_trace. now rewrite <- !app_assoc.
Qed.

Lemma resolver_fast_path_witness :
  fst (resolve_url_headless (world_of shortener) short_link initial_state)
  = Ok "https://shop.example/item/42".
Proof.
  rewrite (resolver_fast_path (world_of shortener) short_link initial_state
             1 2 3 0 (Some "/url?q=https://shop.example/item/42&sa=U")
             "https://shop.example/item/42");
    [ reflexivity | repeat split; reflexivity | split; intros tr; reflexivity
    | reflexivity | reflexivity | reflexivity | reflexivity | reflexivity
    | reflexivity ].
Defined.

(** X15: the slow path.  With its browser up, when the navigation lands on
    a search-engine page on which no redirect anchor is found, or on which
    looking for one fails, the resolver clicks the offer row (a plain
    click, not a forced one), waits for the page this opens and for its
    load, and returns the URL of that new page. *)
Theorem resolver_slow_path (w : World) (dirty_url : string) (st : state)
    (p b pg new_page : handle) :
  opens_headless_page w (trace st) p b pg ->
  releases w p b ->
  let goto := Ev (PageGoto pg dirty_url 30000) (Ok tt) in
  let tr := trace (opened st p b pg) in
  act w _ tr (PageGoto pg dirty_url 30000) = Ok tt ->
  contains "google.com" (obs w _ (tr ++ [goto]) (PageUrl pg)) = true ->
  let found := act w _ (tr ++ [goto]) (LocatorCount pg "a[href*='url?q=']") in
  let counted := Ev (LocatorCount pg "a[href*='url?q=']") found in
  match found with Ok (S _) => False | _ => True end ->
  let clicked := Ev (LocatorClick pg ".sh-osd__offer-row" false) (Ok tt) in
  let popped := Ev (ExpectPage pg) (Ok new_page) in
  let loaded :=
    Ev (PageWaitForLoadState new_page "domcontentloaded") (Ok tt) in
  act w _ ((tr ++ [goto]) ++ [counted])
    (LocatorClick pg ".sh-osd__offer-row" false) = Ok tt ->
  act w _ (((tr ++ [goto]) ++ [counted]) ++ [clicked]) (ExpectPage pg)
  = Ok new_page ->
  act w _ ((((tr ++ [goto]) ++ [counted]) ++ [clicked]) ++ [popped])
    (PageWaitForLoadState new_page "domcontentloaded") = Ok tt ->
  resolve_url_headless w dirty_url st
  = (Ok (obs w _ (((((tr ++ [goto]) ++ [counted]) ++ [clicked]) ++ [popped])
                    ++ [loaded]) (PageUrl new_page)),
     {| shared := shared st;
        trace := trace st ++ headless_prefix p b pg
                 ++ [ goto; counted; clicked; popped; loaded;
                      Ev (BrowserClose b) (Ok tt);
                      Ev (AsyncPlaywrightExit p) (Ok tt) ] |}).
Proof.
  intros Hopen Hrel goto tr Hgoto Hsearch. cbv zeta.
  rewrite (resolve_url_headless_run w dirty_url st p b pg Hopen Hrel).
  cbv zeta.
  destruct (act w _ (tr ++ [goto]) (LocatorCount pg "a[href*='url?q=']"))
    as [[|k]|e] eqn:Hfound;
    intros Hmiss Hclick Hpop Hload; try contradiction.
  all: set (counted := Ev (LocatorCount pg "a[href*='url?q=']") _) in *.
  all: set (clicked := Ev (LocatorClick pg ".sh-osd__offer-row" false) (Ok tt))
         in *.
  all: set (popped := Ev (ExpectPage pg) (Ok new_page)) in *.
  all: set (loaded :=
              Ev (PageWaitForLoadState new_page "domcontentloaded") (Ok tt))
         in *.
  all: assert (try_except (resolve_body w pg dirty_url)
                 (fun _ => ret dirty_url) (opened st p b pg)
               = (Ok (obs w _ (((((tr ++ [goto]) ++ [counted]) ++ [clicked])
                                 ++ [popped]) ++ [loaded]) (PageUrl new_page)),
                  {| shared := shared st;
                     trace := ((((tr ++ [goto]) ++ [counted]) ++ [clicked])
                               ++ [popped]) ++ [loaded] |})) as ->
         by (unfold try_except, resolve_body, extract_from_href,
               click_offer_row, bind, perform, observe, lift, ret, try_except,
               log;
             subst counted clicked popped loaded goto tr;
             remember (opened st p b pg) as st3 eqn:Hst3;
             assert (shared st3 = shared st) as Hsh by (subst st3; reflexivity);
             cbn; rewrite Hgoto; cbn; rewrite Hsearch; cbn;
             rewrite Hfound; cbn; rewrite Hclick; cbn; rewrite Hpop; cbn;
             rewrite Hload; cbn; now rewrite Hsh).
  all: cbn [fst snd]; unfold log; cbn [shared trace]; f_equal; f_equal;
       subst tr; rewrite opened_trace; now rewrite <- !app_assoc.
Qed.

Lemma resolver_slow_path_witness :
  fst (resolve_url_headless offer_world search_link initial_state)
  = Ok "https://shop.example/item/42".
Proof.
  rewrite (resolver_slow_path offer_world search_link initial_state 1 2 3 7);
    [ reflexivity | repeat split; reflexivity | split; intros tr; reflexivity
    | reflexivity | reflexivity | exact I | reflexivity | reflexivity
    | reflexivity ].
Defined.

(** ** The clicker, on every page *)

Lemma click_first_visible_none (w : World) (pg : handle) (sels : list string)
    (st : state) :
  (forall i s, sels !! i = Some s ->
     act w _ (trace st ++ probes pg (take i sels)) (LocatorIsVisible pg s)
     = Ok false) ->
  click_first_visible w pg sels st
  = (Ok false,
     {| shared := shared st; trace := trace st ++ probes pg sels |}).
Proof.
  revert st. induction sels as [|s0 rest IH]; intros st Hmiss.
  - cbn. unfold ret. destruct st. cbn. now rewrite app_nil_r.
  - rewrite click_first_visible_cons.
    pose proof (Hmiss 0 s0 eq_refl) as H0. cbn in H0. rewrite app_nil_r in H0.
    unfold bind at 1. unfold perform at 1. cbn. rewrite H0.
    rewrite (IH (log (Ev (LocatorIsVisible pg s0) (Ok false)) st)).
    + unfold log. cbn. now rewrite <- !app_assoc.
    + intros i s Hs. unfold log. cbn. rewrite <- app_assoc.
      apply (Hmiss (S i) s Hs).
Qed.

(** X16: when none of the eight selectors is visible, the tool has checked
    every one of them, in list order, clicked nothing, not paused, and
    answers with its explicit failure string. *)
Theorem add_to_cart_finds_nothing (w : World) (st : state) (pg : handle) :
  page (shared st) = Some pg ->
  (forall i s, selectors !! i = Some s ->
     act w _ (trace st ++ probes pg (take i selectors)) (LocatorIsVisible pg s)
     = Ok false) ->
  AddToCartTool_execute w st
  = (Ok "❌ FAILED: Could not find 'Add to Cart' button.",
     {| shared := shared st; trace := trace st ++ probes pg selectors |}).
Proof.
  intros Hpage Hmiss.
  unfold AddToCartTool_execute, bind at 1, get_shared. rewrite Hpage.
  unfold try_except, bind.
  now rewrite (click_first_visible_none w pg selectors st Hmiss).
Qed.

Lemma add_to_cart_finds_nothing_witness :
  let st := snd (NavigateTool_execute (world_of bare_shop)
                   "https://shop.example/item/42" initial_state) in
  AddToCartTool_execute (world_of bare_shop) st
  = (Ok "❌ FAILED: Could not find 'Add to Cart' button.",
     {| shared := shared st; trace := trace st ++ probes 4 selectors |}).
Proof.
  intros st. apply add_to_cart_finds_nothing; [reflexivity|].
  intros i s Hs. reflexivity.
Defined.

Lemma click_first_visible_check_fails (w : World) (pg : handle)
    (sels : list string) (k : nat) (sel : string) (st : state) (e : exn) :
  sels !! k = Some sel ->
  (forall i s, i < k -> sels !! i = Some s ->
     act w _ (trace st ++ probes pg (take i sels)) (LocatorIsVisible pg s)
     = Ok false) ->
  act w _ (trace st ++ probes pg (take k sels)) (LocatorIsVisible pg sel)
  = Raise e ->
  click_first_visible w pg sels st
  = (Raise e,
     {| shared := shared st;
        trace := trace st ++ probes pg (take k sels)
                 ++ [Ev (LocatorIsVisible pg sel) (Raise e)] |}).
Proof.
  revert k st. induction sels as [|s0 rest IH]; intros k st Hk Hmiss Hfail.
  - discriminate.
  - rewrite click_first_visible_cons. destruct k as [|k].
    + injection Hk as ->. cbn in Hfail. rewrite app_nil_r in Hfail.
      unfold bind, perform, log. cbn. now rewrite Hfail.
    + cbn in Hk.
      pose proof (Hmiss 0 s0 (Nat.lt_0_succ k) eq_refl) as H0.
      cbn in H0. rewrite app_nil_r in H0.
      unfold bind at 1. unfold perform at 1. cbn. rewrite H0.
      rewrite (IH k (log (Ev (LocatorIsVisible pg s0) (Ok false)) st) Hk).
      * unfold log. cbn. now rewrite <- !app_assoc.
      * intros i s Hi Hs. unfold log. cbn. rewrite <- app_assoc.
        apply (Hmiss (S i) s); [lia | exact Hs].
      * unfold log. cbn. rewrite <- app_assoc. exact Hfail.
Qed.

(** X17: a visibility check that raises ends the search at once: the
    selectors after it are not tried, nothing is clicked, and the fault
    comes back as the string "Click Error: ..." rather than as an
    exception. *)
Theorem add_to_cart_reports_failed_check (w : World) (st : state)
    (pg : handle) (k : nat) (sel : string) (e : exn) :
  page (shared st) = Some pg ->
  selectors !! k = Some sel ->
  (forall i s, i < k -> selectors !! i = Some s ->
     act w _ (trace st ++ probes pg (take i selectors)) (LocatorIsVisible pg s)
     = Ok false) ->
  act w _ (trace st ++ probes pg (take k selectors)) (LocatorIsVisible pg sel)
  = Raise e ->
  AddToCartTool_execute w st
  = (Ok ("Click Error: " +:+ e),
     {| shared := shared st;
        trace := trace st ++ probes pg (take k selectors)
                 ++ [Ev (LocatorIsVisible pg sel) (Raise e)] |}).
Proof.
  intros Hpage Hk Hmiss Hfail.
  unfold AddToCartTool_execute, bind at 1, get_shared. rewrite Hpage.
  unfold try_except, bind.
  now rewrite (click_first_visible_check_fails w pg selectors k sel st e
                 Hk Hmiss Hfail).
Qed.

Lemma add_to_cart_reports_failed_check_witness :
  let st := snd (NavigateTool_execute (world_of shop_with_closed_window)
                   "https://shop.example/item/42" initial_state) in
  AddToCartTool_execute (world_of shop_with_closed_window) st
  = (Ok "Click Error: Target page, context or browser has been closed",
     {| shared := shared st;
        trace := trace st
                 ++ [Ev (LocatorIsVisible 4 "#add-to-cart-button")
                       (Raise "Target page, context or browser has been closed")]
     |}).
Proof.
  intros st.
  apply (add_to_cart_reports_failed_check (world_of shop_with_closed_window)
           st 4 0 "#add-to-cart-button"); try reflexivity.
  intros i s Hi. lia.
Defined.

Lemma click_first_visible_once (w : World) (pg : handle) (sels : list string)
    (st : state) :
  let out := click_first_visible w pg sels st in
  exists evs,
    trace (snd out) = trace st ++ evs
    /\ count forced_click evs <= 1
    /\ count pauses evs = 0
    /\ match fst out with
       | Ok true =>
           exists before sel,
             sel ∈ sels
             /\ evs = before ++ [ Ev (LocatorIsVisible pg sel) (Ok true);
                                  Ev (LocatorClick pg sel true) (Ok tt) ]
             /\ count forced_click before = 0
       | Ok false => count forced_click evs = 0
       | Raise _ => True
       end.
Proof.
  cbv zeta. revert st. induction sels as [|s0 rest IH]; intros st.
  - exists []. cbn. rewrite app_nil_r.
    split; [reflexivity|]. split; [lia|]. split; reflexivity.
  - destruct (act w _ (trace st) (LocatorIsVisible pg s0)) as [[|]|e] eqn:Hv.
    + set (st1 := log (Ev (LocatorIsVisible pg s0) (Ok true)) st).
      set (click := act w _ (trace st1) (LocatorClick pg s0 true)).
      assert (click_first_visible w pg (s0 :: rest) st
              = (match click with Ok _ => Ok true | Raise e => Raise e end,
                 log (Ev (LocatorClick pg s0 true) click) st1)) as ->.
      { rewrite click_first_visible_cons. unfold bind, perform, ret.
        cbn. rewrite Hv. cbn. subst click st1. unfold log. cbn.
        now destruct (act w _ _ (LocatorClick pg s0 true)). }
      exists [Ev (LocatorIsVisible pg s0) (Ok true);
              Ev (LocatorClick pg s0 true) click].
      split; [unfold log; cbn; now rewrite <- app_assoc|].
      split; [cbn; lia|]. split; [reflexivity|].
      destruct click as [[]|e]; [|exact I]. cbn [fst].
      exists [], s0. split; [apply list_elem_of_here|]. split; reflexivity.
    + assert (click_first_visible w pg (s0 :: rest) st
              = click_first_visible w pg rest
                  (log (Ev (LocatorIsVisible pg s0) (Ok false)) st)) as ->.
      { rewrite click_first_visible_cons. unfold bind at 1, perform at 1.
        now rewrite Hv. }
      destruct (IH (log (Ev (LocatorIsVisible pg s0) (Ok false)) st))
        as (evs & Htr & Hone & Hpause & Hres).
      exists (Ev (LocatorIsVisible pg s0) (Ok false) :: evs).
      split; [rewrite Htr; unfold log; cbn; now rewrite <- app_assoc|].
      split; [exact Hone|]. split; [exact Hpause|].
      destruct (fst (click_first_visible w pg rest _)) as [[|]|e];
        [|exact Hres|exact I].
      destruct Hres as (before & sel & Hin & -> & Hzero).
      exists (Ev (LocatorIsVisible pg s0) (Ok false) :: before), sel.
      split; [now apply list_elem_of_further|]. split; [reflexivity|].
      exact Hzero.
    + assert (click_first_visible w pg (s0 :: rest) st
              = (Raise e, log (Ev (LocatorIsVisible pg s0) (Raise e)) st)) as ->.
      { rewrite click_first_visible_cons. unfold bind at 1, perform at 1.
        now rewrite Hv. }
      exists [Ev (LocatorIsVisible pg s0) (Raise e)].
      split; [reflexivity|]. split; [cbn; lia|]. split; [reflexivity|exact I].
Qed.

(** X18: whatever the page does, one call of the tool clicks at most once
    and never touches the shared state.  It reports success only after a
    selector of its list was seen visible and the forced click on that very
    selector returned, these two calls and the pause being the last things
    it did; on every other outcome it has not paused. *)
Theorem add_to_cart_clicks_at_most_once (w : World) (st : state) :
  let out := AddToCartTool_execute w st in
  shared (snd out) = shared st
  /\ exists evs,
       trace (snd out) = trace st ++ evs
       /\ count forced_click evs <= 1
       /\ (fst out = Ok "Success: Item added to cart." ->
           exists pg before sel,
             page (shared st) = Some pg
             /\ sel ∈ selectors
             /\ evs = before ++ [ Ev (LocatorIsVisible pg sel) (Ok true);
                                  Ev (LocatorClick pg sel true) (Ok tt);
                                  EvSleep 5 ]
             /\ count forced_click before = 0)
       /\ (fst out <> Ok "Success: Item added to cart." ->
           count pauses evs = 0).
Proof.
  cbv zeta. split; [apply AddToCartTool_execute_keeps|].
  remember (AddToCartTool_execute w st) as out eqn:Hout.
  unfold AddToCartTool_execute, bind at 1, get_shared in Hout.
  destruct (page (shared st)) as [pg|] eqn:Hpage.
  2:{ subst out. exists []. cbn. rewrite app_nil_r.
      split; [reflexivity|]. split; [lia|]. split; [discriminate|reflexivity]. }
  unfold try_except, bind in Hout.
  destruct (click_first_visible_once w pg selectors st)
    as (evs & Htr & Hone & Hpause & Hres).
  destruct (click_first_visible w pg selectors st) as [[[|]|e] st1];
    cbn [fst snd negb] in *; unfold sleep, ret, log in Hout; subst out;
    cbn [fst snd trace].
  - destruct Hres as (before & sel & Hin & -> & Hzero).
    exists ((before ++ [ Ev (LocatorIsVisible pg sel) (Ok true);
                         Ev (LocatorClick pg sel true) (Ok tt) ])
            ++ [EvSleep 5]).
    split; [rewrite Htr; now rewrite <- !app_assoc|].
    split; [rewrite count_app; cbn; lia|].
    split; [|congruence].
    intros _. exists pg, before, sel. repeat split; try assumption.
    now rewrite <- app_assoc.
  - exists evs.
    split; [exact Htr|]. split; [exact Hone|].
    split; [discriminate | now intros _].
  - exists evs.
    split; [exact Htr|]. split; [exact Hone|].
    split; [rewrite append_cons; discriminate | now intros _].
Qed.

(** ** Navigating, then clicking *)

(** X19: after a navigation that returned, from a state without a session,
    the clicker has a page to work on: it never answers "no browser open",
    whether the navigation reported success or a navigation error. *)
Theorem add_to_cart_after_navigation (w : World) (url : string)
    (st0 : state) (s1 : string) (st1 : state) :
  playwright (shared st0) = None ->
  NavigateTool_execute w url st0 = (Ok s1, st1) ->
  exists pg s,
    page (shared st1) = Some pg
    /\ fst (AddToCartTool_execute w st1) = Ok s
    /\ s <> "Error: No browser open.".
Proof.
  intros Hpw Hrun.
  destruct (NavigateTool_execute_creates_session w url st0 s1 st1 Hpw Hrun)
    as ((p & b & pg & Hsh) & _).
  assert (page (shared st1) = Some pg) as Hpage by now rewrite Hsh.
  exists pg. unfold AddToCartTool_execute, bind at 1, get_shared.
  rewrite Hpage. unfold try_except, bind.
  destruct (click_first_visible w pg selectors st1) as [[[|]|e] st2];
    cbn [negb]; unfold sleep, ret; cbn [fst].
  - eexists. repeat split; discriminate.
  - eexists. repeat split; discriminate.
  - eexists. repeat split. rewrite append_cons. discriminate.
Qed.

Lemma add_to_cart_after_navigation_witness :
  exists s,
    fst (AddToCartTool_execute (world_of shop)
           (snd (NavigateTool_execute (world_of shop)
                   "https://shop.example/item/42" initial_state))) = Ok s
    /\ s <> "Error: No browser open.".
Proof.
  destruct (add_to_cart_after_navigation (world_of shop)
              "https://shop.example/item/42" initial_state
              "✅ Browser Opened. Navigated to: https://shop.example/item/42"
              (snd (NavigateTool_execute (world_of shop)
                      "https://shop.example/item/42" initial_state))
              eq_refl eq_refl) as (pg & s & _ & Hs & Hne).
  now exists s.
Defined.

(** X20: while the page handle is missing although the driver handle is
    set (a session whose creation failed part-way), clicking is refused for
    good: after any sequence of tool calls the clicker still answers "no
    browser open" and does nothing. *)
Theorem add_to_cart_refused_for_good (w : World) (st : state)
    (ts : list tool_call) :
  playwright (shared st) <> None ->
  page (shared st) = None ->
  AddToCartTool_execute w (run_tools w ts st)
  = (Ok "Error: No browser open.", run_tools w ts st).
Proof.
  intros Hpw Hpage.
  destruct (run_tools_keep_session w ts st Hpw) as [Hsh _].
  unfold AddToCartTool_execute, bind, get_shared.
  now rewrite Hsh, Hpage.
Qed.

Lemma add_to_cart_refused_for_good_witness :
  let later := run_tools (world_of shop_without_chromium)
                 [ open_browser_to_url "https://shop.example/item/43";
                   click_add_to_cart;
                   open_browser_to_url search_link ] half_built in
  fst (AddToCartTool_execute (world_of shop_without_chromium) later)
  = Ok "Error: No browser open.".
Proof.
  intros later. unfold later.
  rewrite add_to_cart_refused_for_good; [reflexivity | discriminate | reflexivity].
Defined.

(** ** The HTTP handlers *)


